(** * tx-storm-impact-analyzer: the fetcher and the transformer, verified

    A shallow embedding of [src/download_noaa.py] and
    [src/make_tx_dataset.py], and the properties of their specification.

    Python texts are sequences of Unicode code points, Python integers are
    unbounded, Python floats are IEEE 754 binary64 numbers; the embedding
    keeps all three: [list N], [Z] and the Standard Library's [spec_float]
    at precision 53. *)

From Stdlib Require Import ZArith NArith List String Ascii Bool Lia.
From Stdlib Require Import Floats.SpecFloat.
From stdpp Require Import base option list sorting gmap.

Set Default Proof Using "Type".
Local Open Scope Z_scope.

(** ** Python built-ins used by the two programs *)

Module Py.

(** A text ([str]): its code points, in order. *)
Definition str : Type := list N.

(** The code points of a literal of the source (all of them are ASCII). *)
Definition lit (s : string) : str := N_of_ascii <$> list_ascii_of_string s.

(** Exceptions that the two programs raise or let through. [HTTPError]
    stands for every exception of [requests] (no connection, a timeout, an
    error status, a stream that breaks), [BadGzipFile] for every exception
    of [gzip] on data with a defect, and [ArrowTypeError] for every
    exception of the parquet writer on a table that it cannot convert. *)
Inductive exn : Type :=
| RuntimeError (msg : str)
| FileNotFoundError (msg : str)
| OverflowError
| HTTPError
| BadGzipFile
| ArrowTypeError.

(** The outcome of a call: a value, or an exception on its way up. *)
Inductive result (A : Type) : Type :=
| Return (a : A)
| Raise (e : exn).
Arguments Return {A} a.
Arguments Raise {A} e.

Definition bind {A B} (r : result A) (k : A -> result B) : result B :=
  match r with
  | Return a => k a
  | Raise e => Raise e
  end.

(** Code points with the Unicode property Decimal (category Nd), which is
    what [\d] matches in a text pattern and what [int] reads: each entry is
    the code point of a digit zero, followed by its digits one to nine
    (Unicode 14.0). *)
Definition DECIMAL_ZEROS : list N :=
  [48; 1632; 1776; 1984; 2406; 2534; 2662; 2790; 2918; 3046; 3174; 3302;
   3430; 3558; 3664; 3792; 3872; 4160; 4240; 6112; 6160; 6470; 6608; 6784;
   6800; 6992; 7088; 7232; 7248; 42528; 43216; 43264; 43472; 43504; 43600;
   44016; 65296; 66720; 68912; 69734; 69872; 69942; 70096; 70384; 70736;
   70864; 71248; 71360; 71472; 71904; 72016; 72784; 73040; 73120; 92768;
   92864; 93008; 120782; 120792; 120802; 120812; 120822; 123200; 123632;
   125264; 130032]%N.

Fixpoint decimal_in (zeros : list N) (c : N) : option Z :=
  match zeros with
  | [] => None
  | z :: zeros' =>
      if ((z <=? c) && (c <? z + 10))%N then Some (Z.of_N (c - z))
      else decimal_in zeros' c
  end.

(** [unicodedata.decimal]: the value of a decimal digit. *)
Definition decimal_value (c : N) : option Z := decimal_in DECIMAL_ZEROS c.

(** [ch.isdecimal()], the class [\d]. *)
Definition is_decimal (c : N) : bool := bool_decide (is_Some (decimal_value c)).

(** [int(s)] on a text of decimal digits, which is all the callers pass:
    [None] stands for the [ValueError] of any other text. *)
Fixpoint int_digits (acc : Z) (s : str) : option Z :=
  match s with
  | [] => Some acc
  | c :: s' => d ← decimal_value c; int_digits (10 * acc + d) s'
  end.

Definition int (s : str) : option Z :=
  match s with
  | [] => None
  | _ => int_digits 0 s
  end.

(** [s.startswith(p)], with what follows the prefix. *)
Fixpoint strip_prefix (p s : str) : option str :=
  match p, s with
  | [], _ => Some s
  | a :: p', b :: s' => if (a =? b)%N then strip_prefix p' s' else None
  | _ :: _, [] => None
  end.

(** [n] leading code points of the class [\d], with what follows them. *)
Fixpoint take_decimals (n : nat) (s : str) : option (str * str) :=
  match n with
  | O => Some ([], s)
  | S n' =>
      match s with
      | c :: s' =>
          if is_decimal c
          then '(ds, rest) ← take_decimals n' s'; Some (c :: ds, rest)
          else None
      | [] => None
      end
  end.

(** Code points that [str.isspace] accepts, which are also the class [\s]
    of a text pattern. *)
Definition SPACES : list N :=
  [9; 10; 11; 12; 13; 28; 29; 30; 31; 32; 133; 160; 5760; 8192; 8193; 8194;
   8195; 8196; 8197; 8198; 8199; 8200; 8201; 8202; 8232; 8233; 8239; 8287;
   12288]%N.

Definition is_space (c : N) : bool := bool_decide (c ∈ SPACES).

(** The class [[0-9]]. *)
Definition is_ascii_digit (c : N) : bool := ((48 <=? c) && (c <=? 57))%N.

(** The longest prefix whose code points satisfy [p], and the rest. *)
Fixpoint span (p : N -> bool) (s : str) : str * str :=
  match s with
  | c :: s' =>
      if p c then let '(a, b) := span p s' in (c :: a, b) else ([], s)
  | [] => ([], [])
  end.

Definition lstrip (s : str) : str := snd (span is_space s).
Definition rstrip (s : str) : str := reverse (lstrip (reverse s)).

(** [s.strip()] *)
Definition strip (s : str) : str := rstrip (lstrip s).

(** Code points outside ASCII whose upper-case form has an ASCII letter,
    with that form (Unicode 14.0, full case mapping). *)
Definition UPPER_SPECIAL : list (N * str) :=
  [(223, [83; 83]); (305, [73]); (329, [700; 78]); (383, [83]);
   (496, [74; 780]); (7830, [72; 817]); (7831, [84; 776]);
   (7832, [87; 778]); (7833, [89; 778]); (7834, [65; 702]);
   (64256, [70; 70]); (64257, [70; 73]); (64258, [70; 76]);
   (64259, [70; 70; 73]); (64260, [70; 70; 76]); (64261, [83; 84]);
   (64262, [83; 84])]%N.

Fixpoint assoc (c : N) (table : list (N * str)) : option str :=
  match table with
  | [] => None
  | (k, v) :: table' => if (k =? c)%N then Some v else assoc c table'
  end.

(** The upper-case form of one code point. It is exact on ASCII and on
    the rows of [UPPER_SPECIAL]. Every other code point is left as it is:
    its upper-case form has no ASCII code point, and neither has it, so a
    comparison of [upper s] with an ASCII literal, the only use the
    programs make of it, is decided as in Python. *)
Definition upper_char (c : N) : str :=
  if ((97 <=? c) && (c <=? 122))%N then [(c - 32)%N]
  else default [c] (assoc c UPPER_SPECIAL).

(** [s.upper()] *)
Definition upper (s : str) : str := s ≫= upper_char.

(** Lexicographic order of texts by code point: [a <= b] in Python. *)
Fixpoint str_le (a b : str) : bool :=
  match a, b with
  | [], _ => true
  | _ :: _, [] => false
  | x :: a', y :: b' =>
      if (x <? y)%N then true else if (x =? y)%N then str_le a' b' else false
  end.

(** [sorted(l)]: a stable sort of texts. *)
Fixpoint insert_sorted (x : str) (l : list str) : list str :=
  match l with
  | [] => [x]
  | y :: l' => if str_le y x then y :: insert_sorted x l' else x :: l
  end.

Definition sorted (l : list str) : list str :=
  foldl (fun acc x => insert_sorted x acc) [] l.

(** [range(a, b)] *)
Definition range (a b : Z) : list Z :=
  (fun i : nat => a + Z.of_nat i) <$> seq 0 (Z.to_nat (b - a)).

(** [str(n)] for an integer: its decimal digits, after a minus sign when
    it is negative. *)
Fixpoint uint_digits (d : Decimal.uint) : str :=
  match d with
  | Decimal.Nil => []
  | Decimal.D0 d' => 48%N :: uint_digits d'
  | Decimal.D1 d' => 49%N :: uint_digits d'
  | Decimal.D2 d' => 50%N :: uint_digits d'
  | Decimal.D3 d' => 51%N :: uint_digits d'
  | Decimal.D4 d' => 52%N :: uint_digits d'
  | Decimal.D5 d' => 53%N :: uint_digits d'
  | Decimal.D6 d' => 54%N :: uint_digits d'
  | Decimal.D7 d' => 55%N :: uint_digits d'
  | Decimal.D8 d' => 56%N :: uint_digits d'
  | Decimal.D9 d' => 57%N :: uint_digits d'
  end.

Definition str_of_int (n : Z) : str :=
  match Z.to_int n with
  | Decimal.Pos d => uint_digits d
  | Decimal.Neg d => 45%N :: uint_digits d
  end.

(** *** Floats: IEEE 754 binary64 *)

Definition float : Type := spec_float.
Definition PREC : Z := 53.
Definition EMAX : Z := 1024.

Definition fmul : float -> float -> float := SFmul PREC EMAX.
Definition fadd : float -> float -> float := SFadd PREC EMAX.

Definition is_nan (f : float) : bool :=
  match f with
  | S754_nan => true
  | _ => false
  end.

(** The float of an integer literal of the source, such as [1_000.0]. *)
Definition float_lit (n : Z) : float := binary_normalize PREC EMAX n 0 false.

(** [float(n)] for an integer: the nearest float, ties to even, and
    [OverflowError] when that is beyond the largest float. *)
Definition float_of_int (n : Z) : result float :=
  match binary_normalize PREC EMAX n 0 false with
  | S754_infinity _ => Raise OverflowError
  | f => Return f
  end.

(** The nearest float to [m / 10 ^ k], ties to even. *)
Definition float_of_ratio (m : Z) (k : nat) : float :=
  match m with
  | Zpos p =>
      let '(q, e, l) :=
        SFdiv_core_binary PREC EMAX (Zpos p) 0 (10 ^ Z.of_nat k) 0 in
      binary_round_aux PREC EMAX false q e l
  | _ => S754_zero false
  end.

(** The value of a run of ASCII digits. *)
Definition digits_value (s : str) : Z :=
  foldl (fun acc c => 10 * acc + (Z.of_N c - 48)) 0 s.

(** [float(s)] on the texts that group 1 of [_DAMAGE_RE] can hold: ASCII
    digits around at most one point. The result is the float nearest to
    the decimal number written, and infinity beyond the largest float. *)
Definition float_of_decimal (s : str) : float :=
  let '(whole, rest) := span is_ascii_digit s in
  let frac := match rest with
              | 46%N :: frac => frac
              | _ => []
              end in
  float_of_ratio (digits_value (whole ++ frac)) (length frac).

(** *** Values that a table cell or an argument can hold *)

Inductive value : Type :=
| VNone
| VBool (b : bool)
| VInt (n : Z)
| VFloat (f : float)
| VStr (s : str)
| VOther (text : str).   (* any other object, with the text [str] gives *)

(** [pd.isna(v)] for a scalar *)
Definition isna (v : value) : bool :=
  match v with
  | VNone => true
  | VFloat f => is_nan f
  | _ => false
  end.

End Py.

Import Py.

(** ** [src/download_noaa.py] *)

Module DownloadNoaa.

(** A match of [DETAILS_PATTERN]: group 1 and the two named groups. *)
Record details_match : Type := DetailsMatch {
  group1 : str;
  group_year : str;
  group_cdate : str
}.

Definition DETAILS_HEAD : str := lit "StormEvents_details-ftp_v1.0_d".
Definition DETAILS_MID : str := lit "_c".
Definition DETAILS_TAIL : str := lit ".csv.gz".

(** The length of every match: 30 + 4 + 2 + 8 + 7 code points. *)
Definition DETAILS_LEN : nat := 51.

(** [DETAILS_PATTERN.match(s)]: the pattern
    [(StormEvents_details-ftp_v1\.0_d(?P<year>\d{4})_c(?P<cdate>\d{8})\.csv\.gz)]
    at the start of [s]. *)
Definition DETAILS_PATTERN (s : str) : option details_match :=
  s1 ← strip_prefix DETAILS_HEAD s;
  '(year, s2) ← take_decimals 4 s1;
  s3 ← strip_prefix DETAILS_MID s2;
  '(cdate, s4) ← take_decimals 8 s3;
  _ ← strip_prefix DETAILS_TAIL s4;
  Some (DetailsMatch (take DETAILS_LEN s) year cdate).

(** [DETAILS_PATTERN.finditer(html)]: the matches from left to right; the
    scan resumes after a match, and one code point further where there is
    none. [fuel] bounds the number of steps. *)
Fixpoint finditer_from (fuel : nat) (s : str) : list details_match :=
  match fuel with
  | O => []
  | S fuel' =>
      match DETAILS_PATTERN s with
      | Some m => m :: finditer_from fuel' (drop DETAILS_LEN s)
      | None =>
          match s with
          | [] => []
          | _ :: s' => finditer_from fuel' s'
          end
      end
  end.

Definition finditer (html : str) : list details_match :=
  finditer_from (S (length html)) html.

(** The first loop of [build_latest_file_map]: a triple for each match.
    [int] cannot fail on a group of [\d]; a group it could not read would
    leave its triple out. *)
Definition match_triple (m : details_match) : option (Z * Z * str) :=
  year ← int (group_year m);
  cdate ← int (group_cdate m);
  Some (year, cdate, group1 m).

Definition scan_matches (html : str) : list (Z * Z * str) :=
  omap match_triple (finditer html).

(** The body of the second loop. *)
Definition keep_latest (latest : gmap Z (Z * str)) (m : Z * Z * str)
  : gmap Z (Z * str) :=
  let '(year, cdate, fname) := m in
  match latest !! year with
  | None => <[year := (cdate, fname)]> latest
  | Some (cdate0, _) =>
      if cdate >? cdate0 then <[year := (cdate, fname)]> latest else latest
  end.

Definition NO_FILES_MSG : str :=
  lit "No StormEvents_details files found in directory listing. NOAA page format may have changed.".

Definition build_latest_file_map (html : str) : result (gmap Z str) :=
  let matches := scan_matches html in
  match matches with
  | [] => Raise (RuntimeError NO_FILES_MSG)
  | _ =>
      let latest := foldl keep_latest ∅ matches in
      Return (snd <$> latest)
  end.

(** *** Files and the network

    What a call can see and change: the files under the working directory
    with their bytes, and the record of what the call printed, fetched and
    decompressed. *)
Inductive event : Type :=
| Print (line : str)
| Get (url : str)
| Decompress (path : str).

Record world : Type := World {
  files : gmap str (list Byte.byte);
  log : list event
}.

(** A computation on the world that returns or raises; the world it leaves
    is kept in both cases, since a file written before an exception stays. *)
Definition io (A : Type) : Type := world -> result A * world.

Definition raise {A} (e : exn) : io A := fun w => (Raise e, w).

#[global] Instance io_ret : MRet io := fun A a w => (Return a, w).
#[global] Instance io_bind : MBind io := fun A B k m w =>
  match m w with
  | (Return a, w') => k a w'
  | (Raise e, w') => (Raise e, w')
  end.

Definition emit (e : event) : io unit :=
  fun w => (Return tt, World (files w) (log w ++ [e])).
Definition exists_ (path : str) : io bool :=
  fun w => (Return (bool_decide (is_Some (files w !! path))), w).
(** [open(path, "wb")]: the file is there and empty from now on. *)
Definition open_wb (path : str) : io unit :=
  fun w => (Return tt, World (<[path := []]> (files w)) (log w)).
(** [f.write(data)] on a file opened at [path] *)
Definition write (path : str) (data : list Byte.byte) : io unit :=
  fun w =>
    (Return tt,
     World (<[path := default [] (files w !! path) ++ data]> (files w)) (log w)).
(** Opening [path] for reading: its bytes, or [FileNotFoundError]. *)
Definition open_rb (path : str) : io (list Byte.byte) :=
  fun w =>
    match files w !! path with
    | Some data => (Return data, w)
    | None => (Raise (FileNotFoundError path), w)
    end.

(** [path.name]: what follows the last slash. *)
Definition name (path : str) : str :=
  reverse (fst (span (fun c => negb (c =? 47)%N) (reverse path))).

(** The answer of the server to a request: its status, the chunks that
    [iter_content] delivers, and whether the connection breaks after them.
    The header [Content-Length], which [download_file] reads for the total
    of its progress bar only, is taken to be absent or a decimal number, so
    that reading it raises nothing; the progress bar goes to the standard
    error stream and is not recorded. *)
Record response : Type := Response {
  status_ok : bool;
  chunks : list (list Byte.byte);
  breaks : bool
}.

Section Fetcher.

(** The remote server: [None] when it cannot be reached in time. *)
Variable remote : str -> option response.

(** [gzip]: the bytes decoded before the end of the data or the first
    defect, and whether the data were sound. *)
Variable gzip_decode : list Byte.byte -> list Byte.byte * bool.

Definition requests_get (url : str) : io response :=
  emit (Get url);;
  match remote url with
  | Some r => mret r
  | None => raise HTTPError
  end.

Definition raise_for_status (r : response) : io unit :=
  if status_ok r then mret () else raise HTTPError.

Fixpoint write_chunks (path : str) (cs : list (list Byte.byte)) : io unit :=
  match cs with
  | [] => mret ()
  | chunk :: cs' =>
      match chunk with
      | [] => mret ()
      | _ => write path chunk
      end;;
      write_chunks path cs'
  end.

Definition download_file (url out_path : str) : io unit :=
  b ← exists_ out_path;
  if b : bool then
    emit (Print (9989%N :: lit " Already exists: " ++ name out_path))
  else
    r ← requests_get url;
    raise_for_status r;;
    open_wb out_path;;
    write_chunks out_path (chunks r);;
    if breaks r then raise HTTPError else mret ().

Definition gunzip_file (gz_path csv_path : str) : io unit :=
  b ← exists_ csv_path;
  if b : bool then
    emit (Print (9989%N :: lit " Already unzipped: " ++ name csv_path))
  else
    data ← open_rb gz_path;
    open_wb csv_path;;
    emit (Decompress gz_path);;
    let '(decoded, sound) := gzip_decode data in
    write csv_path decoded;;
    (if sound : bool then mret () else raise BadGzipFile);;
    emit (Print (129513%N :: lit " Unzipped -> " ++ name csv_path)).

(** *** The orchestration of the fetcher *)

Definition BASE_URL : str :=
  lit "https://www.ncei.noaa.gov/pub/data/swdi/stormevents/csvfiles/".
Definition RAW_DIR : str := lit "data/raw".

(** [resp.text]: the text that [requests] decodes from the body. *)
Variable text_of : list (list Byte.byte) -> str.

(** [requests.get(BASE_URL, timeout=60)] reads the whole body before it
    returns, so a connection that breaks raises there. *)
Definition fetch_directory_listing : io str :=
  resp ← requests_get BASE_URL;
  (if breaks resp then raise HTTPError else mret ());;
  raise_for_status resp;;
  mret (text_of (chunks resp)).

(** A call of a function that touches neither the files nor the log. *)
Definition lift {A} (r : result A) : io A :=
  match r with
  | Return a => mret a
  | Raise e => raise e
  end.

(** [s.replace(old, new)] for a pattern [old] that is not empty: from left
    to right, every occurrence that does not overlap an earlier one. *)
Fixpoint replace_from (fuel : nat) (old new s : str) : str :=
  match fuel with
  | O => s
  | S fuel' =>
      match strip_prefix old s with
      | Some rest => new ++ replace_from fuel' old new rest
      | None =>
          match s with
          | [] => []
          | c :: s' => c :: replace_from fuel' old new s'
          end
      end
  end.

Definition replace (old new s : str) : str :=
  replace_from (S (length s)) old new s.

(** [dir / name] for paths: a name that starts with a slash stands for
    itself. Dots and repeated slashes are not normalized. *)
Definition path_div (dir name : str) : str :=
  match name with
  | 47%N :: _ => name
  | _ => dir ++ 47%N :: name
  end.

(** [str(years)] for a list of integers. *)
Fixpoint join_ints (years : list Z) : str :=
  match years with
  | [] => []
  | [y] => str_of_int y
  | y :: years' => str_of_int y ++ lit ", " ++ join_ints years'
  end.

Definition repr_ints (years : list Z) : str :=
  lit "[" ++ join_ints years ++ lit "]".

(** The body of the loop of [main] over the years. *)
Definition fetch_year (latest_map : gmap Z str) (year : Z) : io unit :=
  match latest_map !! year with
  | None => mret ()
  | Some gz_name =>
      let gz_url := BASE_URL ++ gz_name in
      let gz_path := path_div RAW_DIR gz_name in
      let csv_path := path_div RAW_DIR (replace (lit ".gz") [] gz_name) in
      emit (Print (10%N :: 128229%N :: lit " Year " ++ str_of_int year
                   ++ lit ": " ++ gz_name));;
      download_file gz_url gz_path;;
      gunzip_file gz_path csv_path
  end.

Fixpoint for_each {A} (body : A -> io unit) (l : list A) : io unit :=
  match l with
  | [] => mret ()
  | x :: l' => body x;; for_each body l'
  end.

Definition main (start_year end_year : Z) : io unit :=
  html ← fetch_directory_listing;
  latest_map ← lift (build_latest_file_map html);
  let missing_years :=
    filter (fun y => latest_map !! y = None) (range start_year (end_year + 1)) in
  match missing_years with
  | [] => mret ()
  | _ =>
      emit (Print (9888%N :: 65039%N
                   :: lit " No matching details files found for years: "
                   ++ repr_ints missing_years))
  end;;
  for_each (fetch_year latest_map) (range start_year (end_year + 1)).

End Fetcher.

End DownloadNoaa.

(** ** [src/make_tx_dataset.py] *)

Module MakeTxDataset.

Definition KEEP_COLS : list string :=
  ["BEGIN_YEARMONTH"; "BEGIN_DAY"; "BEGIN_TIME"; "END_YEARMONTH"; "END_DAY";
   "END_TIME"; "EPISODE_ID"; "EVENT_ID"; "STATE"; "CZ_NAME"; "CZ_TYPE";
   "EVENT_TYPE"; "MAGNITUDE"; "INJURIES_DIRECT"; "INJURIES_INDIRECT";
   "DEATHS_DIRECT"; "DEATHS_INDIRECT"; "DAMAGE_PROPERTY"; "DAMAGE_CROPS";
   "SOURCE"]%string.

(** The class [[KMB]] of a pattern compiled with [re.IGNORECASE]: the code
    points whose lower-case form is b, k or m, which are the six letters
    and the Kelvin sign U+212A. *)
Definition is_kmb (c : N) : bool :=
  bool_decide (c ∈ [66; 75; 77; 98; 107; 109; 8490]%N).

(** What follows group 1 in [_DAMAGE_RE]: [\s*([KMB])?\s*$]. The result is
    group 2 when the text matches. *)
Definition damage_suffix (s : str) : option (option N) :=
  match lstrip s with
  | [] => Some None
  | c :: s' =>
      if is_kmb c
      then match lstrip s' with
           | [] => Some (Some c)
           | _ :: _ => None
           end
      else None
  end.

(** [_DAMAGE_RE.match(s)], for the pattern
    [^\s*([0-9]*\.?[0-9]+)\s*([KMB])?\s*$]: groups 1 and 2 of the match.
    Group 1 is the longest run of digits, with a point and the digits after
    it when they follow: a shorter group 1 would leave a digit or a point
    where the pattern wants a space, a suffix or the end. *)
Definition _DAMAGE_RE (s : str) : option (str * option N) :=
  let s1 := lstrip s in
  let '(whole, s2) := span is_ascii_digit s1 in
  let '(group1, s3) :=
    match s2 with
    | 46%N :: s2' =>
        match span is_ascii_digit s2' with
        | ([], _) => (whole, s2)
        | (frac, s3) => (whole ++ 46%N :: frac, s3)
        end
    | _ => (whole, s2)
    end in
  match group1 with
  | [] => None
  | _ => group2 ← damage_suffix s3; Some (group1, group2)
  end.

Definition ZERO : float := S754_zero false.

(** Lines 47 to 66 of [parse_damage_to_dollars], on the text [str(value)]. *)
Definition parse_damage_text (text : str) : float :=
  let s := strip text in
  if bool_decide (s = []) || bool_decide (upper s = lit "NA")
     || bool_decide (upper s = lit "N/A")
  then ZERO
  else
    match _DAMAGE_RE s with
    | None => ZERO
    | Some (group1, group2) =>
        let amount := float_of_decimal group1 in
        let suffix := upper (option_list group2) in
        let mult :=
          if bool_decide (suffix = lit "K") then float_lit 1000
          else if bool_decide (suffix = lit "M") then float_lit 1000000
          else if bool_decide (suffix = lit "B") then float_lit 1000000000
          else float_lit 1 in
        fmul amount mult
    end.

(** [parse_damage_to_dollars(value)]. A [bool] is an [int] in Python, and
    the only float that reaches [str(value)] is NaN, whose text is [nan]. *)
Definition parse_damage_to_dollars (value : value) : result float :=
  match value with
  | VNone => Return ZERO
  | VBool b => float_of_int (if b then 1 else 0)
  | VInt n => float_of_int n
  | VFloat f => if is_nan f then Return (parse_damage_text (lit "nan")) else Return f
  | VStr s => Return (parse_damage_text s)
  | VOther text => Return (parse_damage_text text)
  end.

(** *** The raw directory *)

(** An event record: a row of a source file, restricted to [KEEP_COLS].
    The state and the other text columns are read with dtype "string"
    ([None]: a missing value); the combined year-month column is read as
    integers; the other cells are whatever pandas inferred. *)
Record event_row : Type := EventRow {
  BEGIN_YEARMONTH : Z;
  BEGIN_DAY : value;
  BEGIN_TIME : value;
  END_YEARMONTH : value;
  END_DAY : value;
  END_TIME : value;
  EPISODE_ID : value;
  EVENT_ID : value;
  STATE : option str;
  CZ_NAME : option str;
  CZ_TYPE : option str;
  EVENT_TYPE : option str;
  MAGNITUDE : value;
  INJURIES_DIRECT : value;
  INJURIES_INDIRECT : value;
  DEATHS_DIRECT : value;
  DEATHS_INDIRECT : value;
  DAMAGE_PROPERTY : value;
  DAMAGE_CROPS : value;
  SOURCE : option str
}.

(** A row of the result of [load_filter_tx_one_file]. *)
Record tx_row : Type := TxRow {
  event : event_row;
  DAMAGE_PROPERTY_USD : float;
  DAMAGE_CROPS_USD : float;
  TOTAL_DAMAGE_USD : float
}.

(** A row of the dataset that [main] writes. *)
Record dataset_row : Type := DatasetRow {
  tx : tx_row;
  BEGIN_YEAR : Z;
  BEGIN_MONTH : Z
}.

(** The entries of [RAW_DIR], by name, each with the rows of its table. *)
Abbreviation raw_dir := (gmap str (list event_row)).

(** [RAW_DIR.glob(f"StormEvents_details-ftp_v1.0_d{year}_c*.csv")]: the
    names that start with what precedes the star, end with what follows it,
    and are long enough for both. *)
Definition glob_head (year : Z) : str :=
  lit "StormEvents_details-ftp_v1.0_d" ++ str_of_int year ++ lit "_c".
Definition glob_tail : str := lit ".csv".

Definition glob_match (year : Z) (name : str) : bool :=
  match strip_prefix (glob_head year) name with
  | Some rest => bool_decide (is_Some (strip_prefix (reverse glob_tail) (reverse rest)))
  | None => false
  end.

Definition glob (dir : raw_dir) (year : Z) : list str :=
  filter (fun name => glob_match year name = true) (elements (dom dir)).

Definition NO_CSV_MSG (year : Z) : str :=
  lit "No CSV found for year " ++ str_of_int year ++ lit " in data/raw".

(** The generator [iter_year_files], over the years left: the paths it
    yields, and the exception that ends it if one does. *)
Fixpoint iter_years (dir : raw_dir) (years : list Z) : list str * option exn :=
  match years with
  | [] => ([], None)
  | year :: years' =>
      let matches := sorted (glob dir year) in
      match last matches with
      | None => ([], Some (FileNotFoundError (NO_CSV_MSG year)))
      | Some path =>
          let '(paths, e) := iter_years dir years' in (path :: paths, e)
      end
  end.

Definition iter_year_files (dir : raw_dir) (start_year end_year : Z)
  : list str * option exn :=
  iter_years dir (range start_year (end_year + 1)).

(** [list(g)] for a generator [g]. *)
Definition list_of {A} (g : list A * option exn) : result (list A) :=
  match g with
  | (l, None) => Return l
  | (_, Some e) => Raise e
  end.

Section Transformer.

(** [pd.to_numeric(column, errors="coerce")] on a cell: a number, or NaN
    for a cell that is no number; [None] when pandas raises instead of
    coercing, as it may for an integer beyond the float range. *)
Variable to_numeric : value -> option value.

(** [df.to_parquet(OUT_PATH, index=False)]: whether the writer accepts the
    table and writes the file. It refuses, for one, a table with a column
    whose cells are texts in some rows and numbers in others, which the
    concatenation of the tables of two years can be. *)
Variable to_parquet : list dataset_row -> bool.

Definition fillna0 (v : value) : value :=
  if isna v then VFloat ZERO else v.

(** [pd.to_numeric(column, errors="coerce").fillna(0)] on a cell. *)
Definition coerce (v : value) : result value :=
  match to_numeric v with
  | Some x => Return (fillna0 x)
  | None => Raise OverflowError
  end.

(** The batches that [pd.read_csv(..., chunksize=n)] delivers: [n] rows at
    a time, and one empty batch for a table without rows. *)
Fixpoint batches_from (fuel n : nat) (rows : list event_row)
  : list (list event_row) :=
  match fuel, rows with
  | S fuel', _ :: _ => take n rows :: batches_from fuel' n (drop n rows)
  | _, _ => []
  end.

Definition read_csv (rows : list event_row) (chunksize : positive)
  : list (list event_row) :=
  match rows with
  | [] => [[]]
  | _ => batches_from (length rows) (Pos.to_nat chunksize) rows
  end.

(** [chunk["STATE"].str.upper() == "TEXAS"] on one row; a missing state
    compares as missing, and such a row is not selected. *)
Definition is_texas (r : event_row) : bool :=
  match STATE r with
  | Some s => bool_decide (upper s = lit "TEXAS")
  | None => false
  end.

(** [column.apply(parse_damage_to_dollars)]: cell after cell, up to the
    first exception. *)
Fixpoint apply_parse (cells : list value) : result (list float) :=
  match cells with
  | [] => Return []
  | v :: cells' =>
      bind (parse_damage_to_dollars v) (fun x =>
      bind (apply_parse cells') (fun xs => Return (x :: xs)))
  end.

(** The conversion of a column of numbers: cell after cell, up to the
    first exception. *)
Fixpoint apply_coerce (cells : list value) : result (list value) :=
  match cells with
  | [] => Return []
  | v :: cells' =>
      bind (coerce v) (fun x =>
      bind (apply_coerce cells') (fun xs => Return (x :: xs)))
  end.

(** A row with its five columns of numbers replaced. *)
Definition set_numeric (r : event_row)
    (magnitude injuries_direct injuries_indirect deaths_direct
     deaths_indirect : value) : event_row :=
  EventRow (BEGIN_YEARMONTH r) (BEGIN_DAY r) (BEGIN_TIME r) (END_YEARMONTH r)
    (END_DAY r) (END_TIME r) (EPISODE_ID r) (EVENT_ID r) (STATE r) (CZ_NAME r)
    (CZ_TYPE r) (EVENT_TYPE r) magnitude injuries_direct injuries_indirect
    deaths_direct deaths_indirect (DAMAGE_PROPERTY r) (DAMAGE_CROPS r)
    (SOURCE r).

(** The rows of a batch with their new columns. *)
Definition assemble (chunk : list event_row) (property crops : list float)
    (injuries_direct injuries_indirect deaths_direct deaths_indirect
     magnitude : list value) : list tx_row :=
  zip_with
    (fun r '(p, (c, (a, (b, (d, (e, m)))))) =>
       TxRow (set_numeric r m a b d e) p c (fadd p c))
    chunk
    (zip property (zip crops (zip injuries_direct (zip injuries_indirect
       (zip deaths_direct (zip deaths_indirect magnitude)))))).

(** The three damage columns and the five coerced ones, in the order of
    the code, for a batch that has been filtered. *)
Definition clean_chunk (chunk : list event_row) : result (list tx_row) :=
  bind (apply_parse (DAMAGE_PROPERTY <$> chunk)) (fun property =>
  bind (apply_parse (DAMAGE_CROPS <$> chunk)) (fun crops =>
  bind (apply_coerce (INJURIES_DIRECT <$> chunk)) (fun injuries_direct =>
  bind (apply_coerce (INJURIES_INDIRECT <$> chunk)) (fun injuries_indirect =>
  bind (apply_coerce (DEATHS_DIRECT <$> chunk)) (fun deaths_direct =>
  bind (apply_coerce (DEATHS_INDIRECT <$> chunk)) (fun deaths_indirect =>
  bind (apply_coerce (MAGNITUDE <$> chunk)) (fun magnitude =>
  Return (assemble chunk property crops injuries_direct injuries_indirect
            deaths_direct deaths_indirect magnitude)))))))).

(** The loop of [load_filter_tx_one_file] over the batches. *)
Fixpoint filter_chunks (chunks : list (list event_row))
  : result (list (list tx_row)) :=
  match chunks with
  | [] => Return []
  | chunk :: chunks' =>
      let chunk := filter (fun r => is_texas r = true) chunk in
      match chunk with
      | [] => filter_chunks chunks'
      | _ =>
          bind (clean_chunk chunk) (fun cleaned =>
          bind (filter_chunks chunks') (fun tx_chunks =>
          Return (cleaned :: tx_chunks)))
      end
  end.

(** [load_filter_tx_one_file(csv_path, chunksize)], on the rows of the
    table at [csv_path]. A result without rows is [pd.DataFrame()]. *)
Definition load_filter_tx_one_file (rows : list event_row)
    (chunksize : positive) : result (list tx_row) :=
  bind (filter_chunks (read_csv rows chunksize)) (fun tx_chunks =>
  match tx_chunks with
  | [] => Return []
  | _ => Return (concat tx_chunks)
  end).

Definition NO_TEXAS_MSG : str := lit "No Texas records found across all years.".

(** The loop of [main] over the files. *)
Fixpoint load_all (dir : raw_dir) (paths : list str)
  : result (list (list tx_row)) :=
  match paths with
  | [] => Return []
  | f :: paths' =>
      bind (load_filter_tx_one_file (default [] (dir !! f)) 200000) (fun df_tx =>
      bind (load_all dir paths') (fun all_tx =>
      Return (match df_tx with
              | [] => all_tx
              | _ => df_tx :: all_tx
              end)))
  end.

Definition derive (r : tx_row) : dataset_row :=
  DatasetRow r (BEGIN_YEARMONTH (event r) / 100)
    (BEGIN_YEARMONTH (event r) mod 100).

(** [main()]: the table written to [OUT_PATH], or the exception raised;
    nothing is written when the writer refuses the table. *)
Definition main (dir : raw_dir) : result (list dataset_row) :=
  bind (list_of (iter_year_files dir 2010 2025)) (fun paths =>
  bind (load_all dir paths) (fun all_tx =>
  match all_tx with
  | [] => Raise (RuntimeError NO_TEXAS_MSG)
  | _ =>
      let df := derive <$> concat all_tx in
      if to_parquet df then Return df else Raise ArrowTypeError
  end)).

End Transformer.

End MakeTxDataset.

(** * The vocabulary of the specification, and sample data *)

Import DownloadNoaa MakeTxDataset.

(** The naming convention of the remote files: [fname] is a name whose year
    is written [year] and whose revision date is written [cdate]. *)
Definition details_name (fname year cdate : str) : Prop :=
  fname = DETAILS_HEAD ++ year ++ DETAILS_MID ++ cdate ++ DETAILS_TAIL /\
  length year = 4%nat /\ Forall (fun c => is_decimal c = true) year /\
  length cdate = 8%nat /\ Forall (fun c => is_decimal c = true) cdate.

(** The text holds the file name [fname] of the naming convention, for the
    year [year] and with the revision date [cdate]. *)
Definition filename_in (html : str) (year cdate : Z) (fname : str) : Prop :=
  exists pre suf ytext ctext,
    html = pre ++ fname ++ suf /\ details_name fname ytext ctext /\
    int ytext = Some year /\ int ctext = Some cdate.

(** A listing with two revisions of the year 2020. *)
Definition LISTING_2020 : str :=
  lit "<li>StormEvents_details-ftp_v1.0_d2020_c20210115.csv.gz</li><li>StormEvents_details-ftp_v1.0_d2020_c20220601.csv.gz</li>".

Definition NAME_2020_A : str := lit "StormEvents_details-ftp_v1.0_d2020_c20210115.csv.gz".
Definition NAME_2020_B : str := lit "StormEvents_details-ftp_v1.0_d2020_c20220601.csv.gz".

(** The name of the first revision with its year in fullwidth digits
    (U+FF10 to U+FF19), which [\d] matches and [int] reads. *)
Definition NAME_2020_WIDE : str :=
  lit "StormEvents_details-ftp_v1.0_d" ++ [65298; 65296; 65298; 65296]%N
  ++ lit "_c20210115.csv.gz".

Definition EMPTY_WORLD_WITH (path : str) : world :=
  World {[ path := [] ]} [].

(** Vocabulary of the specification for the damage texts: runs of spaces,
    decimal numbers, and the suffixes with their multipliers. *)
Definition spaces (s : str) : Prop := Forall (fun c => is_space c = true) s.
Definition digits (s : str) : Prop := Forall (fun c => is_ascii_digit c = true) s.

(** A decimal number: digits, or digits (possibly none), a point and at
    least one digit. *)
Definition decimal_number (num : str) : Prop :=
  exists whole frac,
    digits whole /\ digits frac /\
    ((num = whole /\ whole <> []) \/ (num = whole ++ 46%N :: frac /\ frac <> [])).

(** The multiplier of a suffix: none, or one of K, M, B in either case. *)
Definition suffix_multiplier (suffix : str) : option Z :=
  if bool_decide (suffix = []) then Some 1
  else if bool_decide (suffix = lit "K" \/ suffix = lit "k") then Some 1000
  else if bool_decide (suffix = lit "M" \/ suffix = lit "m") then Some 1000000
  else if bool_decide (suffix = lit "B" \/ suffix = lit "b") then Some 1000000000
  else None.

(** A text that is a decimal number [num] with the suffix [suffix], with
    optional spaces around the two. *)
Definition damage_text (s num suffix : str) : Prop :=
  exists ws1 ws2 ws3,
    s = ws1 ++ num ++ ws2 ++ suffix ++ ws3 /\
    spaces ws1 /\ spaces ws2 /\ spaces ws3 /\ decimal_number num.

(** The Kelvin sign, whose lower-case form is the letter k. *)
Definition KELVIN : N := 8490%N.

Definition starts_outside (p : N -> bool) (s : str) : Prop :=
  match s with
  | [] => True
  | c :: _ => p c = false
  end.

(** The multiplier that the chain of comparisons picks for group 2. *)
Definition group2_mult (group2 : option N) : float :=
  let suffix := upper (option_list group2) in
  if bool_decide (suffix = lit "K") then float_lit 1000
  else if bool_decide (suffix = lit "M") then float_lit 1000000
  else if bool_decide (suffix = lit "B") then float_lit 1000000000
  else float_lit 1.

Definition str_order (a b : str) : Prop := str_le a b = true.

(** The naming convention of the decompressed file of a year:
    [StormEvents_details-ftp_v1.0_d], the year in decimal digits, [_c],
    anything (the revision date), and [.csv]. *)
Definition year_file (year : Z) (path : str) : Prop :=
  exists revision,
    path = (lit "StormEvents_details-ftp_v1.0_d" ++ str_of_int year ++ lit "_c")
           ++ revision ++ lit ".csv".

(** The raw directory holds a file of the year. *)
Definition has_year_file (dir : raw_dir) (year : Z) : Prop :=
  exists path, path ∈ dom dir /\ year_file year path.

(** [path] is the lexicographically last file of the year. *)
Definition last_year_file (dir : raw_dir) (year : Z) (path : str) : Prop :=
  path ∈ dom dir /\ year_file year path /\
  forall q, q ∈ dom dir -> year_file year q -> str_le q path = true.

(** A raw directory with two revisions for 2010 and one for 2011. *)
Definition RAW_2010_2011 : raw_dir :=
  {[ lit "StormEvents_details-ftp_v1.0_d2010_c20210101.csv" := [];
     lit "StormEvents_details-ftp_v1.0_d2010_c20220101.csv" := [];
     lit "StormEvents_details-ftp_v1.0_d2011_c20210101.csv" := [] ]}.

(** Two texts are equal when case is ignored: their upper-case forms are
    the same. *)
Definition same_ignoring_case (a b : str) : Prop := upper a = upper b.

(** The target region. *)
Definition REGION : str := lit "Texas".

(** The state of the row is the target region, case ignored. *)
Definition in_region (r : event_row) : Prop :=
  exists s, STATE r = Some s /\ same_ignoring_case s REGION.

(** A cell from which a damage amount can be read: any value but an
    integer beyond the largest float. *)
Definition convertible (v : value) : Prop :=
  exists x, parse_damage_to_dollars v = Return x.

Definition damage_readable (r : event_row) : Prop :=
  convertible (DAMAGE_PROPERTY r) /\ convertible (DAMAGE_CROPS r).

(** The amount read from a convertible cell. *)
Definition usd (v : value) : float :=
  match parse_damage_to_dollars v with
  | Return x => x
  | Raise _ => ZERO
  end.

#[global] Instance in_region_dec (r : event_row) : Decision (in_region r).
Proof.
  unfold in_region, same_ignoring_case. destruct (STATE r) as [s|].
  - destruct (decide (upper s = upper REGION)) as [Heq|Hne].
    + left. by exists s.
    + right. intros (s' & [= <-] & Heq). by apply Hne.
  - right. by intros (s & [=] & _).
Defined.

(** The tables that [main] keeps: those with a row. *)
Fixpoint drop_empty {A} (dfs : list (list A)) : list (list A) :=
  match dfs with
  | [] => []
  | df :: dfs' =>
      match df with
      | [] => drop_empty dfs'
      | _ => df :: drop_empty dfs'
      end
  end.

(** The rows of the table at a path of the raw directory. *)
Definition rows_at (dir : raw_dir) (path : str) : list event_row :=
  default [] (dir !! path).

Section Vocabulary.

Variable to_numeric : value -> option value.

(** A row whose five cells of numbers pandas converts without raising. *)
Definition numeric_readable (r : event_row) : Prop :=
  is_Some (to_numeric (INJURIES_DIRECT r)) /\
  is_Some (to_numeric (INJURIES_INDIRECT r)) /\
  is_Some (to_numeric (DEATHS_DIRECT r)) /\
  is_Some (to_numeric (DEATHS_INDIRECT r)) /\
  is_Some (to_numeric (MAGNITUDE r)).

(** A row all of whose converted cells can be converted. *)
Definition readable (r : event_row) : Prop :=
  damage_readable r /\ numeric_readable r.

(** The number in a cell that pandas converts, with zero for a missing
    one. *)
Definition numeric (v : value) : value :=
  match to_numeric v with
  | Some x => fillna0 x
  | None => VFloat ZERO
  end.

Definition coerce_row (r : event_row) : event_row :=
  set_numeric r (numeric (MAGNITUDE r)) (numeric (INJURIES_DIRECT r))
    (numeric (INJURIES_INDIRECT r)) (numeric (DEATHS_DIRECT r))
    (numeric (DEATHS_INDIRECT r)).

(** The normalized record of a row of the region. *)
Definition clean_row (r : event_row) : tx_row :=
  TxRow (coerce_row r) (usd (DAMAGE_PROPERTY r)) (usd (DAMAGE_CROPS r))
    (fadd (usd (DAMAGE_PROPERTY r)) (usd (DAMAGE_CROPS r))).

(** [df] is the result of [load_filter_tx_one_file] for the file [path]. *)
Definition year_result (dir : raw_dir) (path : str) (df : list tx_row) : Prop :=
  load_filter_tx_one_file to_numeric (rows_at dir path) 200000 = Return df.

End Vocabulary.

Definition sample_row (state : option str) (yearmonth : Z)
    (property crops : value) : event_row :=
  EventRow yearmonth (VInt 1) (VInt 1200) (VInt yearmonth) (VInt 1) (VInt 1300)
    (VInt 7) (VInt 42) state (Some (lit "TRAVIS")) (Some (lit "C"))
    (Some (lit "Hail")) (VFloat (float_lit 1)) (VInt 0) (VInt 0) (VInt 0)
    (VInt 0) property crops (Some (lit "Public")).

(** A sample conversion for columns whose cells are numbers or missing,
    as those of the sample data are: a number stays, except an integer
    beyond the float range, which raises; a cell that is no number becomes
    NaN. *)
Definition SAMPLE_NUMERIC (v : value) : option value :=
  match v with
  | VInt n =>
      match float_of_int n with
      | Return _ => Some v
      | Raise _ => None
      end
  | VFloat _ => Some v
  | _ => Some (VFloat S754_nan)
  end.

(** A sample writer: it refuses a table in which a damage column holds a
    text in one row and a number in another, and accepts any other. *)
Definition is_text (v : value) : bool :=
  match v with
  | VStr _ => true
  | _ => false
  end.

Definition is_number (v : value) : bool :=
  match v with
  | VInt _ | VBool _ => true
  | VFloat f => negb (is_nan f)
  | _ => false
  end.

Definition mixed (cells : list value) : bool :=
  existsb is_text cells && existsb is_number cells.

Definition SAMPLE_WRITER (df : list dataset_row) : bool :=
  negb (mixed ((fun row => DAMAGE_PROPERTY (event (tx row))) <$> df)
        || mixed ((fun row => DAMAGE_CROPS (event (tx row))) <$> df)).

Definition SAMPLE_ROWS : list event_row :=
  [sample_row (Some (lit "TEXAS")) 201503 (VStr (lit "10.5K")) (VStr (lit "2M"));
   sample_row (Some (lit "OKLAHOMA")) 201504 (VInt (10 ^ 400)) VNone;
   sample_row (Some (lit "Texas")) 201112 (VFloat S754_nan) (VStr (lit "500"));
   sample_row None 201001 (VStr (lit "1K")) (VStr (lit "1K"))].


(** The same file with another state. *)
Definition ELSEWHERE_ROWS : list event_row :=
  [sample_row (Some (lit "OKLAHOMA")) 201504 (VInt (10 ^ 400)) (VInt 0)].



Definition OTHER_ROWS : list event_row :=
  [sample_row (Some (lit "OKLAHOMA")) 201004 (VStr (lit "3K")) VNone].

Definition sample_name (year : Z) : str :=
  lit "StormEvents_details-ftp_v1.0_d" ++ str_of_int year ++ lit "_c20240101.csv".

(** A raw directory with one file for each year from 2010 to 2025; only
    the file of 2011 has rows of the region. *)
Definition RAW_ALL_YEARS : raw_dir :=
  list_to_map
    ((fun year =>
        (sample_name year, if year =? 2011 then SAMPLE_ROWS else OTHER_ROWS))
       <$> range 2010 2026).

Definition SAMPLE_PATHS : list str := sample_name <$> range 2010 2026.

Definition SAMPLE_RESULTS : list (list tx_row) :=
  (fun path =>
     clean_row SAMPLE_NUMERIC <$> filter in_region (rows_at RAW_ALL_YEARS path))
    <$> SAMPLE_PATHS.



Definition SAMPLE_DATASET_ROW : dataset_row :=
  derive (clean_row SAMPLE_NUMERIC
            (sample_row (Some (lit "TEXAS")) 201503 (VStr (lit "10.5K"))
               (VStr (lit "2M")))).

(** Sample servers and a sample decoder. The first server answers every
    request with three chunks, the second one breaks after them, the third
    one answers with an error status. *)
Definition SAMPLE_CHUNKS : list (list Byte.byte) :=
  [[Byte.x1f; Byte.x8b]; []; [Byte.x08]].
Definition SERVER_OK (url : str) : option response :=
  Some (Response true SAMPLE_CHUNKS false).
Definition SERVER_BREAKS (url : str) : option response :=
  Some (Response true SAMPLE_CHUNKS true).
Definition SERVER_ERROR (url : str) : option response :=
  Some (Response false [] false).
Definition DECODE_SOUND (data : list Byte.byte) : list Byte.byte * bool :=
  (data ++ data, true).
Definition DECODE_DEFECT (data : list Byte.byte) : list Byte.byte * bool :=
  (take 1 data, false).
Definition NO_FILES : world := World ∅ [].
Definition GZ_PATH : str := lit "data/raw/a.csv.gz".
Definition CSV_PATH : str := lit "data/raw/a.csv".
Definition GZ_URL : str := lit "https://example.org/a.csv.gz".
Definition ONE_GZ : world := World {[ GZ_PATH := [Byte.x1f; Byte.x8b] ]} [].

(** An event that is a printed line. *)
Definition is_print (e : DownloadNoaa.event) : Prop :=
  match e with
  | Print _ => True
  | _ => False
  end.

(** The two local paths of a remote file name: the compressed file and
    the decompressed one. *)
Definition gz_path_of (gz_name : str) : str := path_div RAW_DIR gz_name.
Definition csv_path_of (gz_name : str) : str :=
  path_div RAW_DIR (replace (lit ".gz") [] gz_name).

(** A computation that removes no file, whatever it returns or raises. *)
Definition keeps_files {A} (c : io A) : Prop :=
  forall w p, is_Some (files w !! p) -> is_Some (files (c w).2 !! p).

Section Listing.

Variable remote : str -> option response.
Variable text_of : list (list Byte.byte) -> str.

(** The listing that the server gives, if it gives one. *)
Definition listing : result str :=
  match remote BASE_URL with
  | None => Raise HTTPError
  | Some r =>
      if breaks r then Raise HTTPError
      else if status_ok r then Return (text_of (chunks r))
      else Raise HTTPError
  end.

End Listing.

(** A run of the fetcher over the year 2020 with the sample listing and
    server, from an empty directory, and the world it leaves. *)
Definition SAMPLE_TEXT (body : list (list Byte.byte)) : str := LISTING_2020.
Definition SAMPLE_RUN : io unit :=
  DownloadNoaa.main SERVER_OK DECODE_SOUND SAMPLE_TEXT 2020 2020.
Definition AFTER_SAMPLE_RUN : world := (SAMPLE_RUN NO_FILES).2.

(** A float that is a number, with the sign [s] ([false]: not negative). *)
Definition signed (s : bool) (f : float) : Prop :=
  match f with
  | S754_nan => False
  | S754_zero b | S754_infinity b | S754_finite b _ _ => b = s
  end.

(** * Properties *)

(** ** Texts and patterns *)

Lemma strip_prefix_Some (p s r : str) :
  strip_prefix p s = Some r <-> s = p ++ r.
Proof.
  revert s; induction p as [|a p IH]; intros s; simpl.
  - split; [by intros [= ->] | by intros ->].
  - destruct s as [|b s]; [done|].
    destruct (N.eqb_spec a b) as [->|Hne].
    + rewrite IH. split; [by intros -> | by intros [= ->]].
    + split; [done | intros [= -> _]; done].
Qed.

Lemma strip_prefix_app (p r : str) : strip_prefix p (p ++ r) = Some r.
Proof. by apply strip_prefix_Some. Qed.

Lemma take_decimals_Some (n : nat) (s ds r : str) :
  take_decimals n s = Some (ds, r) <->
  s = ds ++ r /\ length ds = n /\ Forall (fun c => is_decimal c = true) ds.
Proof.
  revert s ds r; induction n as [|n IH]; intros s ds r; simpl.
  - split.
    + by intros [= <- ->].
    + intros (-> & Hl & _). by destruct ds.
  - destruct s as [|c s].
    { split; [done|]. intros (Hs & Hl & _). destruct ds; simplify_eq/=. }
    destruct (is_decimal c) eqn:Hc; cycle 1.
    { split; [done|]. intros (Hs & Hl' & Hd').
      destruct ds as [|d ds]; simplify_eq/=. inversion Hd'; congruence. }
    destruct (take_decimals n s) as [[ds' r']|] eqn:Ht; simpl.
    + apply IH in Ht as (-> & Hl & Hd). split.
      * intros [= <- <-]. repeat split; simpl; auto.
      * intros (Hs & Hl' & Hd'). destruct ds as [|d ds]; [done|].
        simpl in Hs, Hl'. injection Hs as -> Hs. injection Hl' as Hl'.
        apply app_inj_1 in Hs as [-> ->]; [done | congruence].
    + split; [done|]. intros (Hs & Hl' & Hd').
      destruct ds as [|d ds]; simplify_eq/=. inversion Hd'; subst.
      assert (take_decimals (length ds) (ds ++ r) = Some (ds, r)) as Ht'
        by (apply IH; auto).
      congruence.
Qed.

Lemma int_digits_decimals (s : str) (acc : Z) :
  Forall (fun c => is_decimal c = true) s -> is_Some (int_digits acc s).
Proof.
  intros H; revert acc; induction H as [|c s Hc _ IH]; intros acc; simpl; [by eexists|].
  unfold is_decimal in Hc. apply bool_decide_eq_true in Hc as [d Hd].
  rewrite Hd; simpl. apply IH.
Qed.

Lemma int_decimals (s : str) :
  s <> [] -> Forall (fun c => is_decimal c = true) s -> is_Some (int s).
Proof. destruct s; [done|]. intros _ H. by apply int_digits_decimals. Qed.

Lemma details_name_length (fname year cdate : str) :
  details_name fname year cdate -> length fname = DETAILS_LEN.
Proof.
  intros (-> & Hy & _ & Hc & _). rewrite !length_app, Hy, Hc. reflexivity.
Qed.

Lemma DETAILS_PATTERN_Some (s : str) (m : details_match) :
  DETAILS_PATTERN s = Some m <->
  details_name (group1 m) (group_year m) (group_cdate m) /\
  exists rest, s = group1 m ++ rest.
Proof.
  unfold DETAILS_PATTERN. split.
  - intros H.
    apply bind_Some in H as (s1 & H1 & H).
    apply strip_prefix_Some in H1 as ->.
    apply bind_Some in H as ([year s2] & H2 & H).
    apply take_decimals_Some in H2 as (-> & Hy & Hyd).
    apply bind_Some in H as (s3 & H3 & H).
    apply strip_prefix_Some in H3 as ->.
    apply bind_Some in H as ([cdate s4] & H4 & H).
    apply take_decimals_Some in H4 as (-> & Hc & Hcd).
    apply bind_Some in H as (s5 & H5 & H).
    apply strip_prefix_Some in H5 as ->.
    assert (Hm : m = DetailsMatch (take DETAILS_LEN (DETAILS_HEAD ++ year ++ DETAILS_MID ++ cdate ++ DETAILS_TAIL ++ s5)) year cdate) by congruence.
    clear H; subst m; cbv [group1 group_year group_cdate].
    assert (Hname : details_name
              (DETAILS_HEAD ++ year ++ DETAILS_MID ++ cdate ++ DETAILS_TAIL)
              year cdate) by (repeat split; auto).
    assert (Heq : DETAILS_HEAD ++ year ++ DETAILS_MID ++ cdate ++ DETAILS_TAIL ++ s5
                  = (DETAILS_HEAD ++ year ++ DETAILS_MID ++ cdate ++ DETAILS_TAIL) ++ s5)
      by (by rewrite <- !app_assoc).
    rewrite Heq, take_app_length' by (by apply details_name_length in Hname).
    split; [done | by exists s5].
  - intros [Hname [rest ->]].
    pose proof (details_name_length _ _ _ Hname) as Hlen.
    destruct Hname as (Hf & Hy & Hyd & Hc & Hcd).
    rewrite take_app_length' by done.
    apply bind_Some. exists (group_year m ++ DETAILS_MID ++ group_cdate m ++ DETAILS_TAIL ++ rest).
    split; [apply strip_prefix_Some; rewrite Hf at 1; by rewrite <- !app_assoc|].
    apply bind_Some. exists (group_year m, DETAILS_MID ++ group_cdate m ++ DETAILS_TAIL ++ rest).
    split; [by apply take_decimals_Some|].
    apply bind_Some. exists (group_cdate m ++ DETAILS_TAIL ++ rest).
    split; [by apply strip_prefix_Some|].
    apply bind_Some. exists (group_cdate m, DETAILS_TAIL ++ rest).
    split; [by apply take_decimals_Some|].
    apply bind_Some. exists rest.
    split; [by apply strip_prefix_Some|].
    by destruct m.
Qed.

(** ** The scan of the directory listing *)

Lemma finditer_from_fuel (fuel1 fuel2 : nat) (s : str) :
  (length s < fuel1)%nat -> (length s < fuel2)%nat ->
  finditer_from fuel1 s = finditer_from fuel2 s.
Proof.
  revert fuel2 s; induction fuel1 as [|fuel1 IH]; intros [|fuel2] s H1 H2; try lia.
  simpl. destruct (DETAILS_PATTERN s) as [m|] eqn:Hm.
  - f_equal. apply DETAILS_PATTERN_Some in Hm as [Hn [rest ->]].
    apply details_name_length in Hn.
    rewrite drop_app_length' by done.
    rewrite length_app, Hn in H1, H2. unfold DETAILS_LEN in *.
    apply IH; lia.
  - destruct s as [|c s]; [done|]. simpl in H1, H2. apply IH; lia.
Qed.

(** The scan, one step at a time. *)
Lemma finditer_eq (s : str) :
  finditer s =
  match DETAILS_PATTERN s with
  | Some m => m :: finditer (drop DETAILS_LEN s)
  | None =>
      match s with
      | [] => []
      | _ :: s' => finditer s'
      end
  end.
Proof.
  unfold finditer at 1. cbn [finditer_from].
  destruct (DETAILS_PATTERN s) as [m|] eqn:Hm.
  - f_equal. apply DETAILS_PATTERN_Some in Hm as [Hn [rest ->]].
    apply details_name_length in Hn.
    rewrite drop_app_length' by done.
    apply finditer_from_fuel; rewrite ?length_app, ?Hn; unfold DETAILS_LEN; lia.
  - destruct s as [|c s]; [done|].
    apply finditer_from_fuel; simpl; lia.
Qed.

Lemma DETAILS_HEAD_eq :
  DETAILS_HEAD =
  [83; 116; 111; 114; 109; 69; 118; 101; 110; 116; 115; 95; 100; 101; 116;
   97; 105; 108; 115; 45; 102; 116; 112; 95; 118; 49; 46; 48; 95; 100]%N.
Proof. reflexivity. Qed.

Lemma DETAILS_MID_eq : DETAILS_MID = [95; 99]%N.
Proof. reflexivity. Qed.

Lemma DETAILS_TAIL_eq : DETAILS_TAIL = [46; 99; 115; 118; 46; 103; 122]%N.
Proof. reflexivity. Qed.

Lemma DETAILS_PATTERN_not_S (c : N) (s : str) :
  c <> 83%N -> DETAILS_PATTERN (c :: s) = None.
Proof.
  intros Hc. unfold DETAILS_PATTERN. rewrite DETAILS_HEAD_eq.
  cbn [strip_prefix]. destruct (N.eqb_spec 83 c); [congruence | done].
Qed.

Lemma decimal_not_S (c : N) : is_decimal c = true -> c <> 83%N.
Proof. intros H ->. vm_compute in H. discriminate. Qed.

(** No match starts inside another one: a capital S is the first code
    point of a match and occurs nowhere else in it. *)
Lemma DETAILS_PATTERN_no_overlap (s : str) (m : details_match) (k : nat) :
  DETAILS_PATTERN s = Some m -> (0 < k < DETAILS_LEN)%nat ->
  DETAILS_PATTERN (drop k s) = None.
Proof.
  intros Hm Hk. apply DETAILS_PATTERN_Some in Hm as [Hn [rest ->]].
  destruct Hn as (-> & Hy & Hyd & Hc & Hcd).
  destruct (group_year m) as [|y1 [|y2 [|y3 [|y4 [|]]]]]; try done.
  destruct (group_cdate m) as [|c1 [|c2 [|c3 [|c4 [|c5 [|c6 [|c7 [|c8 [|]]]]]]]]];
    try done.
  repeat match goal with
         | H : Forall _ (_ :: _) |- _ => apply Forall_cons in H as [?%decimal_not_S H]
         end.
  rewrite DETAILS_HEAD_eq, DETAILS_MID_eq, DETAILS_TAIL_eq.
  unfold DETAILS_LEN in Hk.
  destruct k as [|k]; [lia|].
  do 50 (destruct k as [|k]; [by apply DETAILS_PATTERN_not_S|]).
  lia.
Qed.

Lemma DETAILS_PATTERN_app (s t : str) (m : details_match) :
  DETAILS_PATTERN s = Some m -> DETAILS_PATTERN (s ++ t) = Some m.
Proof.
  intros [Hn [rest ->]]%DETAILS_PATTERN_Some. apply DETAILS_PATTERN_Some.
  split; [done|]. exists (rest ++ t). by rewrite app_assoc.
Qed.

Lemma DETAILS_PATTERN_name (fname year cdate suf : str) :
  details_name fname year cdate ->
  DETAILS_PATTERN (fname ++ suf) = Some (DetailsMatch fname year cdate).
Proof. intros Hn. apply DETAILS_PATTERN_Some. split; [done | by exists suf]. Qed.

Lemma finditer_nil : finditer [] = [].
Proof. reflexivity. Qed.

(** The matches of a text around a file name: those before the name, the
    name, those after it. *)
Lemma finditer_app (pre fname year cdate suf : str) :
  details_name fname year cdate ->
  finditer (pre ++ fname ++ suf) =
  finditer pre ++ DetailsMatch fname year cdate :: finditer suf.
Proof.
  intros Hn. pose proof (details_name_length _ _ _ Hn) as Hlen.
  remember (length pre) as n eqn:Hpre.
  revert pre Hpre; induction (lt_wf n) as [n _ IH]; intros pre ->.
  destruct pre as [|a pre].
  - simpl. rewrite finditer_eq, (DETAILS_PATTERN_name _ _ _ _ Hn).
    by rewrite drop_app_length'.
  - rewrite finditer_eq.
    destruct (DETAILS_PATTERN ((a :: pre) ++ fname ++ suf)) as [m'|] eqn:Hm'.
    + destruct (decide (DETAILS_LEN <= length (a :: pre))%nat) as [Hle|Hgt].
      * pose proof Hm' as [Hn' [rest' Heq]]%DETAILS_PATTERN_Some.
        pose proof (details_name_length _ _ _ Hn') as Hlen'.
        assert (Hg : group1 m' = take DETAILS_LEN (a :: pre)).
        { rewrite <- (take_app_le _ (fname ++ suf)) by done.
          rewrite Heq. by rewrite take_app_length'. }
        assert (Hpm : DETAILS_PATTERN (a :: pre) = Some m').
        { apply DETAILS_PATTERN_Some. split; [done|].
          exists (drop DETAILS_LEN (a :: pre)). by rewrite Hg, take_drop. }
        rewrite (finditer_eq (a :: pre)), Hpm.
        rewrite drop_app_le by done. simpl. f_equal.
        eapply IH; [|reflexivity].
        rewrite length_drop. unfold DETAILS_LEN in *. simpl in *. lia.
      * exfalso.
        apply (DETAILS_PATTERN_no_overlap _ _ (length (a :: pre))) in Hm';
          [|simpl in *; lia].
        rewrite drop_app_length in Hm'.
        by rewrite (DETAILS_PATTERN_name _ _ _ _ Hn) in Hm'.
    + rewrite (finditer_eq (a :: pre)).
      destruct (DETAILS_PATTERN (a :: pre)) as [m'|] eqn:Hpm.
      { apply (DETAILS_PATTERN_app _ (fname ++ suf)) in Hpm. congruence. }
      simpl. eapply IH; [|reflexivity]. simpl; lia.
Qed.

(** Every match that the scan reports is a file name of the text. *)
Lemma finditer_elem (s : str) (m : details_match) :
  m ∈ finditer s ->
  details_name (group1 m) (group_year m) (group_cdate m) /\
  exists pre suf, s = pre ++ group1 m ++ suf.
Proof.
  remember (length s) as n eqn:Hs.
  revert s Hs; induction (lt_wf n) as [n _ IH]; intros s -> Hin.
  rewrite finditer_eq in Hin.
  destruct (DETAILS_PATTERN s) as [m'|] eqn:Hm'.
  - pose proof Hm' as [Hn' [rest' ->]]%DETAILS_PATTERN_Some.
    pose proof (details_name_length _ _ _ Hn') as Hlen'.
    apply elem_of_cons in Hin as [->|Hin].
    + split; [done|]. by exists [], rest'.
    + rewrite drop_app_length' in Hin by done.
      eapply IH in Hin as [Hn (pre & suf & ->)]; [| |reflexivity].
      * split; [done|]. exists (group1 m' ++ pre), suf. by rewrite <- app_assoc.
      * rewrite length_app, Hlen'. unfold DETAILS_LEN. lia.
  - destruct s as [|c s]; [by apply elem_of_nil in Hin|].
    eapply IH in Hin as [Hn (pre & suf & ->)]; [| |reflexivity].
    + split; [done|]. by exists (c :: pre), suf.
    + simpl; lia.
Qed.

Lemma match_triple_name (fname ytext ctext : str) (year cdate : Z) :
  int ytext = Some year -> int ctext = Some cdate ->
  match_triple (DetailsMatch fname ytext ctext) = Some (year, cdate, fname).
Proof. intros Hy Hc. unfold match_triple; simpl. by rewrite Hy, Hc. Qed.

Lemma scan_matches_app (pre fname ytext ctext suf : str) (year cdate : Z) :
  details_name fname ytext ctext ->
  int ytext = Some year -> int ctext = Some cdate ->
  scan_matches (pre ++ fname ++ suf) =
  scan_matches pre ++ (year, cdate, fname) :: scan_matches suf.
Proof.
  intros Hn Hy Hc. unfold scan_matches.
  rewrite (finditer_app _ _ _ _ _ Hn), omap_app. simpl.
  by rewrite (match_triple_name _ _ _ _ _ Hy Hc).
Qed.

(** The triples of the first loop are the file names of the text. *)
Lemma scan_matches_filename (html : str) (year cdate : Z) (fname : str) :
  (year, cdate, fname) ∈ scan_matches html <-> filename_in html year cdate fname.
Proof.
  split.
  - intros Hin. unfold scan_matches in Hin.
    apply list_elem_of_omap in Hin as (m & Hm & Ht).
    apply finditer_elem in Hm as [Hn (pre & suf & ->)].
    unfold match_triple in Ht.
    destruct (int (group_year m)) as [y|] eqn:Hy; [|done].
    destruct (int (group_cdate m)) as [c|] eqn:Hc; [|done].
    simpl in Ht. injection Ht as <- <- <-.
    by exists pre, suf, (group_year m), (group_cdate m).
  - intros (pre & suf & ytext & ctext & -> & Hn & Hy & Hc).
    rewrite (scan_matches_app _ _ _ _ _ _ _ Hn Hy Hc).
    apply elem_of_app. right. apply elem_of_cons. by left.
Qed.

Lemma details_name_triple (fname ytext ctext : str) :
  details_name fname ytext ctext ->
  exists year cdate, int ytext = Some year /\ int ctext = Some cdate.
Proof.
  intros (_ & Hy & Hyd & Hc & Hcd).
  destruct (int_decimals ytext) as [y Hy']; [by destruct ytext | done |].
  destruct (int_decimals ctext) as [c Hc']; [by destruct ctext | done |].
  by exists y, c.
Qed.

(** ** The latest revision of each year *)

Section KeepLatest.

Variable year : Z.
Variable cdate : Z.

(** As long as every triple of the year has an earlier date than [cdate],
    so has the entry of the year, if there is one. *)
Lemma keep_latest_earlier (l : list (Z * Z * str)) (latest : gmap Z (Z * str)) :
  (forall c f, (year, c, f) ∈ l -> c < cdate) ->
  (forall c f, latest !! year = Some (c, f) -> c < cdate) ->
  forall c f, foldl keep_latest latest l !! year = Some (c, f) -> c < cdate.
Proof.
  revert latest; induction l as [|[[y c0] f0] l IH]; intros latest Hl Hlatest; [done|].
  simpl. apply IH.
  - intros c f Hin. apply (Hl c f). by right.
  - intros c f. unfold keep_latest.
    destruct (decide (y = year)) as [->|Hne].
    + assert (c0 < cdate) by (apply (Hl c0 f0); by left).
      destruct (latest !! year) as [[c1 f1]|] eqn:Hy.
      * destruct (c0 >? c1); [rewrite lookup_insert_eq; by intros [= <- <-]|].
        rewrite Hy. intros [= <- <-]. by apply (Hlatest c1 f1).
      * rewrite lookup_insert_eq. by intros [= <- <-].
    + destruct (latest !! y) as [[c1 f1]|];
        [destruct (c0 >? c1)|]; rewrite ?lookup_insert_ne by done; apply Hlatest.
Qed.

(** Once the entry of the year carries [cdate], no triple with the same
    or an earlier date replaces it. *)
Lemma keep_latest_stays (l : list (Z * Z * str)) (latest : gmap Z (Z * str))
    (fname : str) :
  (forall c f, (year, c, f) ∈ l -> c <= cdate) ->
  latest !! year = Some (cdate, fname) ->
  foldl keep_latest latest l !! year = Some (cdate, fname).
Proof.
  revert latest; induction l as [|[[y c0] f0] l IH]; intros latest Hl Hlatest; [done|].
  simpl. apply IH.
  - intros c f Hin. apply (Hl c f). by right.
  - unfold keep_latest. destruct (decide (y = year)) as [->|Hne].
    + assert (c0 <= cdate) by (apply (Hl c0 f0); by left).
      rewrite Hlatest. destruct (Z.gtb_spec c0 cdate); [lia | done].
    + destruct (latest !! y) as [[c1 f1]|];
        [destruct (c0 >? c1)|]; by rewrite ?lookup_insert_ne by done.
Qed.

(** The first of the triples of the year with the largest date is the one
    that the second loop keeps. *)
Lemma keep_latest_first_max (l1 l2 : list (Z * Z * str)) (fname : str) :
  (forall c f, (year, c, f) ∈ l1 -> c < cdate) ->
  (forall c f, (year, c, f) ∈ l2 -> c <= cdate) ->
  foldl keep_latest ∅ (l1 ++ (year, cdate, fname) :: l2) !! year
  = Some (cdate, fname).
Proof.
  intros H1 H2. rewrite foldl_app. simpl.
  apply keep_latest_stays; [done|].
  pose proof (keep_latest_earlier l1 ∅ H1) as Hlt.
  set (latest := foldl keep_latest ∅ l1) in *. clearbody latest.
  unfold keep_latest.
  destruct (latest !! year) as [[c1 f1]|] eqn:Hy.
  - assert (c1 < cdate) by (by apply (Hlt ltac:(done) c1 f1)).
    destruct (Z.gtb_spec cdate c1); [|lia]. by rewrite lookup_insert_eq.
  - by rewrite lookup_insert_eq.
Qed.

End KeepLatest.

(** A list with a triple of the year splits at the first of its triples of
    the year with the largest date. *)
Lemma first_max_split (year : Z) (l : list (Z * Z * str)) :
  (exists c f, (year, c, f) ∈ l) ->
  exists l1 cdate fname l2,
    l = l1 ++ (year, cdate, fname) :: l2 /\
    (forall c f, (year, c, f) ∈ l1 -> c < cdate) /\
    (forall c f, (year, c, f) ∈ l2 -> c <= cdate).
Proof.
  induction l as [|[[y c0] f0] l IH]; intros (c & f & Hin).
  { by apply elem_of_nil in Hin. }
  destruct (decide (Exists (fun t => t.1.1 = year) l)) as [Hex|Hnex].
  - apply Exists_exists in Hex as ([[y' c'] f'] & Hin' & Hy'). simpl in Hy'; subst y'.
    destruct IH as (l1 & cd & fn & l2 & -> & H1 & H2); [by exists c', f'|].
    destruct (decide (y = year /\ cd <= c0)) as [[-> Hle]|Hno].
    + exists [], c0, f0, (l1 ++ (year, cd, fn) :: l2). split; [done|].
      split; [by intros ? ? ?%elem_of_nil|].
      intros c1 f1 [Hc1|[Heq|Hc1]%elem_of_cons]%elem_of_app.
      * apply H1 in Hc1. lia.
      * injection Heq as -> ->. lia.
      * apply H2 in Hc1. lia.
    + exists ((y, c0, f0) :: l1), cd, fn, l2. split; [done|]. split; [|done].
      intros c1 f1 [Heq|Hc1]%elem_of_cons; [|by eapply H1].
      injection Heq as <- <- <-. lia.
  - exists [], c0, f0, l.
    apply elem_of_cons in Hin as [Heq|Hin].
    + injection Heq as <- <- <-. split; [done|].
      split; [by intros ? ? ?%elem_of_nil|].
      intros c1 f1 Hc1. exfalso. apply Hnex, Exists_exists. by exists (year, c1, f1).
    + exfalso. apply Hnex, Exists_exists. by exists (year, c, f).
Qed.

(** The mapping returned for a text whose matches split at a first latest
    triple of the year. *)
Lemma build_latest_first_max (html : str) (year cdate : Z) (fname : str)
    (l1 l2 : list (Z * Z * str)) :
  scan_matches html = l1 ++ (year, cdate, fname) :: l2 ->
  (forall c f, (year, c, f) ∈ l1 -> c < cdate) ->
  (forall c f, (year, c, f) ∈ l2 -> c <= cdate) ->
  exists m, build_latest_file_map html = Return m /\ m !! year = Some fname.
Proof.
  intros Hs H1 H2. unfold build_latest_file_map. rewrite Hs.
  destruct (l1 ++ (year, cdate, fname) :: l2) as [|t l] eqn:Hl.
  { by destruct l1. }
  rewrite <- Hl. eexists; split; [done|].
  rewrite lookup_fmap, (keep_latest_first_max year cdate l1 l2 fname H1 H2). done.
Qed.

Lemma scan_matches_nil (html : str) :
  scan_matches html = [] <-> ~ exists y c f, filename_in html y c f.
Proof.
  split.
  - intros Hs (y & c & f & Hin). apply scan_matches_filename in Hin.
    rewrite Hs in Hin. by apply elem_of_nil in Hin.
  - intros Hno. destruct (scan_matches html) as [|[[y c] f] l] eqn:Hs; [done|].
    exfalso. apply Hno. exists y, c, f. apply scan_matches_filename.
    rewrite Hs. by left.
Qed.

(** C1: for every text and every year of which the text holds a file name
    of the naming convention, [build_latest_file_map] returns a mapping
    that gives the year a file name of the text for that year whose
    revision date is the largest of all the file names of the text for
    that year; a file name whose date is larger than that of every other
    one for the year is the one the mapping gives. *)
Theorem build_latest_file_map_largest (html : str) (year : Z) :
  (exists c f, filename_in html year c f) ->
  exists m fname cdate,
    build_latest_file_map html = Return m /\
    m !! year = Some fname /\
    filename_in html year cdate fname /\
    (forall c f, filename_in html year c f -> c <= cdate) /\
    (forall c f, filename_in html year c f ->
       (forall c' f', filename_in html year c' f' -> f' <> f -> c' < c) ->
       fname = f).
Proof.
  intros (c0 & f0 & Hin0). apply scan_matches_filename in Hin0.
  destruct (first_max_split year (scan_matches html)) as
    (l1 & cdate & fname & l2 & Hs & H1 & H2); [by exists c0, f0|].
  destruct (build_latest_first_max html year cdate fname l1 l2 Hs H1 H2)
    as (m & Hm & Hy).
  assert (Hfn : filename_in html year cdate fname).
  { apply scan_matches_filename. rewrite Hs. apply elem_of_app. right. by left. }
  assert (Hmax : forall c f, filename_in html year c f -> c <= cdate).
  { intros c f Hin. apply scan_matches_filename in Hin. rewrite Hs in Hin.
    apply elem_of_app in Hin as [Hin|[Heq|Hin]%elem_of_cons].
    - apply H1 in Hin. lia.
    - injection Heq as -> ->. lia.
    - by apply H2 in Hin. }
  exists m, fname, cdate. repeat split; auto.
  intros c f Hin Hstrict.
  destruct (decide (fname = f)) as [|Hne]; [done|].
  pose proof (Hstrict cdate fname Hfn Hne). pose proof (Hmax c f Hin). lia.
Qed.

(** C4: [build_latest_file_map] raises its error exactly when the text
    holds no file name of the naming convention, and returns a mapping
    exactly when the text holds one: it never returns an empty mapping. *)
Theorem build_latest_file_map_raises_iff (html : str) :
  (build_latest_file_map html = Raise (RuntimeError NO_FILES_MSG) <->
   ~ exists y c f, filename_in html y c f) /\
  ((exists m, build_latest_file_map html = Return m) <->
   exists y c f, filename_in html y c f) /\
  (forall m, build_latest_file_map html = Return m -> m <> ∅).
Proof.
  rewrite <- scan_matches_nil. unfold build_latest_file_map.
  destruct (scan_matches html) as [|[[y c] f] l] eqn:Hs.
  - split; [done|]. split; [|done]. split; [by intros [m ?]|].
    intros Hex. apply scan_matches_nil in Hs. by destruct Hs.
  - split; [done|]. split.
    + split; [|by eexists]. intros _. exists y, c, f.
      apply scan_matches_filename. rewrite Hs. by left.
    + intros m Hm Hempty.
      assert (Hm' : snd <$> foldl keep_latest ∅ ((y, c, f) :: l) = m)
        by (by injection Hm).
      rewrite Hempty in Hm'. clear Hm Hempty.
      destruct (first_max_split y ((y, c, f) :: l)) as
        (l1 & cd & fn & l2 & Hl & H1 & H2); [exists c, f; by left|].
      rewrite Hl in Hm'. rename Hm' into Hempty.
      pose proof (keep_latest_first_max y cd l1 l2 fn H1 H2) as Hy.
      apply (f_equal (fun m => m !! y)) in Hempty.
      by rewrite lookup_fmap, Hy, lookup_empty in Hempty.
Qed.

(** C3, as the code has it: of the file names of a year that carry its
    largest revision date, the first one in scan order is the one the
    mapping gives, whatever follows it with the same date. *)
Theorem build_latest_file_map_tie_first
    (pre fname suf ytext ctext : str) (year cdate : Z) :
  details_name fname ytext ctext ->
  int ytext = Some year -> int ctext = Some cdate ->
  (forall c f, filename_in pre year c f -> c < cdate) ->
  (forall c f, filename_in suf year c f -> c <= cdate) ->
  exists m,
    build_latest_file_map (pre ++ fname ++ suf) = Return m /\
    m !! year = Some fname.
Proof.
  intros Hn Hy Hc H1 H2.
  apply (build_latest_first_max _ year cdate fname (scan_matches pre) (scan_matches suf)).
  - by apply (scan_matches_app _ _ ytext ctext).
  - intros c f Hin. apply (H1 c f). by apply scan_matches_filename.
  - intros c f Hin. apply (H2 c f). by apply scan_matches_filename.
Qed.

Lemma build_latest_file_map_largest_witness :
  (exists c f, filename_in LISTING_2020 2020 c f) /\
  exists m fname cdate,
    build_latest_file_map LISTING_2020 = Return m /\
    m !! 2020 = Some fname /\
    filename_in LISTING_2020 2020 cdate fname /\
    (forall c f, filename_in LISTING_2020 2020 c f -> c <= cdate) /\
    (forall c f, filename_in LISTING_2020 2020 c f ->
       (forall c' f', filename_in LISTING_2020 2020 c' f' -> f' <> f -> c' < c) ->
       fname = f).
Proof.
  assert (Hex : exists c f, filename_in LISTING_2020 2020 c f).
  { exists 20210115, NAME_2020_A.
    exists (lit "<li>"),
      (lit "</li><li>StormEvents_details-ftp_v1.0_d2020_c20220601.csv.gz</li>"),
      (lit "2020"), (lit "20210115").
    split; [vm_compute; reflexivity|].
    split; [|split; vm_compute; reflexivity].
    unfold details_name.
    split; [vm_compute; reflexivity|].
    split; [vm_compute; reflexivity|].
    split; [repeat constructor|].
    split; [vm_compute; reflexivity|].
    repeat constructor. }
  split; [exact Hex|].
  exact (build_latest_file_map_largest LISTING_2020 2020 Hex).
Defined.

Example build_latest_file_map_listing_2020 :
  exists m, build_latest_file_map LISTING_2020 = Return m /\
            m !! 2020 = Some NAME_2020_B.
Proof.
  exists (snd <$> foldl keep_latest ∅ (scan_matches LISTING_2020)).
  split; vm_compute; reflexivity.
Qed.

Lemma build_latest_file_map_raises_iff_witness :
  build_latest_file_map (lit "<html><body>Index of /pub/data</body></html>")
  = Raise (RuntimeError NO_FILES_MSG).
Proof.
  apply (proj1 (build_latest_file_map_raises_iff _)).
  apply scan_matches_nil. vm_compute. reflexivity.
Defined.

Lemma build_latest_file_map_tie_first_witness :
  exists m,
    build_latest_file_map ([] ++ NAME_2020_A ++ NAME_2020_WIDE) = Return m /\
    m !! 2020 = Some NAME_2020_A.
Proof.
  apply (build_latest_file_map_tie_first [] NAME_2020_A NAME_2020_WIDE
           (lit "2020") (lit "20210115") 2020 20210115).
  - unfold details_name.
    split; [vm_compute; reflexivity|].
    split; [vm_compute; reflexivity|].
    split; [repeat constructor|].
    split; [vm_compute; reflexivity|].
    repeat constructor.
  - vm_compute; reflexivity.
  - vm_compute; reflexivity.
  - intros c f Hin%scan_matches_filename. by apply elem_of_nil in Hin.
  - intros c f Hin%scan_matches_filename.
    assert (Hs : scan_matches NAME_2020_WIDE = [(2020, 20210115, NAME_2020_WIDE)])
      by (vm_compute; reflexivity).
    rewrite Hs in Hin. apply list_elem_of_singleton in Hin.
    assert (c = 20210115) as -> by congruence. lia.
Defined.

(** C3, as stated, fails: two names of the year 2020 with the revision
    date 20210115 follow each other, and the mapping gives the year the
    first of them, not the last. *)
Lemma build_latest_file_map_tie_not_last :
  scan_matches (NAME_2020_A ++ NAME_2020_WIDE)
  = [(2020, 20210115, NAME_2020_A); (2020, 20210115, NAME_2020_WIDE)] /\
  NAME_2020_A <> NAME_2020_WIDE /\
  exists m,
    build_latest_file_map (NAME_2020_A ++ NAME_2020_WIDE) = Return m /\
    m !! 2020 = Some NAME_2020_A /\
    m !! 2020 <> Some NAME_2020_WIDE.
Proof.
  split; [vm_compute; reflexivity|].
  split; [vm_compute; discriminate|].
  exists (snd <$> foldl keep_latest ∅ (scan_matches (NAME_2020_A ++ NAME_2020_WIDE))).
  split; [vm_compute; reflexivity|].
  assert (H : (snd <$> foldl keep_latest ∅ (scan_matches (NAME_2020_A ++ NAME_2020_WIDE)))
              !! 2020 = Some NAME_2020_A) by (vm_compute; reflexivity).
  split; [exact H|]. rewrite H. vm_compute. discriminate.
Qed.

(** ** Downloads and decompression that find their destination *)

Section FetcherFacts.

Variable remote : str -> option response.
Variable gzip_decode : list Byte.byte -> list Byte.byte * bool.

Lemma download_file_existing (url out_path : str) (w : world) :
  is_Some (files w !! out_path) ->
  download_file remote url out_path w =
  (Return (),
   World (files w)
     (log w ++ [Print (9989%N :: lit " Already exists: " ++ name out_path)])).
Proof.
  intros Hex. unfold download_file, mbind, io_bind, exists_.
  by rewrite bool_decide_eq_true_2.
Qed.

Lemma gunzip_file_existing (gz_path csv_path : str) (w : world) :
  is_Some (files w !! csv_path) ->
  gunzip_file gzip_decode gz_path csv_path w =
  (Return (),
   World (files w)
     (log w ++ [Print (9989%N :: lit " Already unzipped: " ++ name csv_path)])).
Proof.
  intros Hex. unfold gunzip_file, mbind, io_bind, exists_.
  by rewrite bool_decide_eq_true_2.
Qed.

Lemma write_chunks_keeps (path : str) (cs : list (list Byte.byte)) (w : world) :
  is_Some (files w !! path) ->
  exists w', write_chunks path cs w = (Return (), w') /\
             is_Some (files w' !! path) /\ log w' = log w.
Proof.
  revert w; induction cs as [|chunk cs IH]; intros w Hex.
  - by exists w.
  - cbn [write_chunks]. unfold mbind, io_bind.
    destruct chunk as [|b chunk].
    + cbn. by apply IH.
    + cbn. destruct (IH (World (<[path := default [] (files w !! path) ++ b :: chunk]> (files w)) (log w)))
        as (w' & Hw' & Hex' & Hlog); [cbn; by rewrite lookup_insert_eq|].
      exists w'. by rewrite Hw'.
Qed.

(** A download that returns leaves its destination in place. *)
Lemma download_file_creates (url out_path : str) (w w' : world) :
  download_file remote url out_path w = (Return (), w') ->
  is_Some (files w' !! out_path).
Proof.
  destruct (decide (is_Some (files w !! out_path))) as [Hex|Hno].
  - rewrite download_file_existing by done. by intros [= <-].
  - unfold download_file, mbind, io_bind, exists_.
    rewrite bool_decide_eq_false_2 by done.
    unfold requests_get, mbind, io_bind, emit, raise, mret, io_ret.
    destruct (remote url) as [r|]; [|done].
    unfold raise_for_status, raise, mret, io_ret.
    destruct (status_ok r); [|done]. cbn [open_wb files log].
    destruct (write_chunks_keeps out_path (chunks r)
                (World (<[out_path := []]> (files w)) (log w ++ [Get url])))
      as (w1 & Hw1 & Hex1 & _); [cbn; by rewrite lookup_insert_eq|].
    unfold open_wb. cbn [files log]. rewrite Hw1.
    destruct (breaks r); [done|]. by intros [= <-].
Qed.

(** A decompression that returns leaves its destination in place. *)
Lemma gunzip_file_creates (gz_path csv_path : str) (w w' : world) :
  gunzip_file gzip_decode gz_path csv_path w = (Return (), w') ->
  is_Some (files w' !! csv_path).
Proof.
  destruct (decide (is_Some (files w !! csv_path))) as [Hex|Hno].
  - rewrite gunzip_file_existing by done. by intros [= <-].
  - unfold gunzip_file, mbind, io_bind, exists_.
    rewrite bool_decide_eq_false_2 by done.
    unfold open_rb. destruct (files w !! gz_path) as [data|]; [|done].
    unfold open_wb, emit, write. cbn [files log].
    destruct (gzip_decode data) as [decoded sound]. cbn [files log].
    destruct sound; [|done]. unfold mret, io_ret. cbn [files log].
    intros [= <-]. cbn. by rewrite lookup_insert_eq.
Qed.

(** C9: [download_file] and [gunzip_file] called on a destination that
    exists return at once: no file changes, and the only thing recorded is
    the line they print, so nothing is fetched and nothing is decompressed.
    After a call that returned, the destination exists, so a second call
    with the same destination is such a call: it leaves every file as the
    first call left it. *)
Theorem existing_destination_skips
    (url out_path gz_path csv_path : str) (w : world) :
  (is_Some (files w !! out_path) ->
   exists line,
     download_file remote url out_path w =
     (Return (), World (files w) (log w ++ [Print line]))) /\
  (is_Some (files w !! csv_path) ->
   exists line,
     gunzip_file gzip_decode gz_path csv_path w =
     (Return (), World (files w) (log w ++ [Print line]))) /\
  (forall w1,
     download_file remote url out_path w = (Return (), w1) ->
     exists line,
       download_file remote url out_path w1 =
       (Return (), World (files w1) (log w1 ++ [Print line]))) /\
  (forall w1,
     gunzip_file gzip_decode gz_path csv_path w = (Return (), w1) ->
     exists line,
       gunzip_file gzip_decode gz_path csv_path w1 =
       (Return (), World (files w1) (log w1 ++ [Print line]))).
Proof.
  repeat split.
  - intros Hex. eexists. by apply download_file_existing.
  - intros Hex. eexists. by apply gunzip_file_existing.
  - intros w1 H1%download_file_creates. eexists. by apply download_file_existing.
  - intros w1 H1%gunzip_file_creates. eexists. by apply gunzip_file_existing.
Qed.

End FetcherFacts.

Lemma existing_destination_skips_witness :
  exists line,
    download_file (fun _ => None) (lit "https://example.org/a.csv.gz")
      (lit "data/raw/a.csv.gz") (EMPTY_WORLD_WITH (lit "data/raw/a.csv.gz")) =
    (Return (),
     World (files (EMPTY_WORLD_WITH (lit "data/raw/a.csv.gz")))
       (log (EMPTY_WORLD_WITH (lit "data/raw/a.csv.gz")) ++ [Print line])).
Proof.
  apply (proj1 (existing_destination_skips (fun _ => None) (fun b => (b, true))
                  (lit "https://example.org/a.csv.gz") (lit "data/raw/a.csv.gz")
                  (lit "data/raw/a.csv.gz") (lit "data/raw/a.csv")
                  (EMPTY_WORLD_WITH (lit "data/raw/a.csv.gz")))).
  exists []. unfold EMPTY_WORLD_WITH. cbn [files]. apply lookup_singleton_eq.
Defined.

(** ** Damage amounts *)

Lemma span_spec (p : N -> bool) (s a b : str) :
  span p s = (a, b) ->
  s = a ++ b /\ Forall (fun c => p c = true) a /\ starts_outside p b.
Proof.
  revert a b; induction s as [|c s IH]; intros a b; simpl.
  - by intros [= <- <-].
  - destruct (p c) eqn:Hc.
    + destruct (span p s) as [a' b'] eqn:Hs. intros [= <- <-].
      destruct (IH a' b' eq_refl) as (-> & Ha & Hb). by repeat split; [constructor|].
    + intros [= <- <-]. by repeat split.
Qed.

Lemma span_app (p : N -> bool) (a b : str) :
  Forall (fun c => p c = true) a -> starts_outside p b -> span p (a ++ b) = (a, b).
Proof.
  intros Ha Hb; induction Ha as [|c a Hc Ha IH]; simpl.
  - destruct b as [|c b]; [done|]. simpl in *. by rewrite Hb.
  - by rewrite Hc, IH.
Qed.

Lemma lstrip_spec (s : str) :
  exists ws, s = ws ++ lstrip s /\ spaces ws /\ starts_outside is_space (lstrip s).
Proof.
  unfold lstrip. destruct (span is_space s) as [a b] eqn:Hs.
  apply span_spec in Hs as (-> & Ha & Hb). by exists a.
Qed.

Lemma lstrip_app (ws s : str) :
  spaces ws -> starts_outside is_space s -> lstrip (ws ++ s) = s.
Proof. intros Hw Hs. unfold lstrip. by rewrite span_app. Qed.

Lemma lstrip_spaces (ws : str) : spaces ws -> lstrip ws = [].
Proof. intros Hw. rewrite <- (app_nil_r ws). by apply lstrip_app. Qed.

Lemma rstrip_app (s ws : str) :
  spaces ws -> starts_outside is_space (reverse s) -> rstrip (s ++ ws) = s.
Proof.
  intros Hw Hs. unfold rstrip. rewrite reverse_app, lstrip_app, reverse_involutive; auto.
  unfold spaces. by rewrite Forall_reverse.
Qed.

Lemma rstrip_spec (s : str) :
  exists ws, s = rstrip s ++ ws /\ spaces ws /\
             starts_outside is_space (reverse (rstrip s)).
Proof.
  unfold rstrip. destruct (lstrip_spec (reverse s)) as (ws & Hs & Hw & Hl).
  exists (reverse ws). rewrite reverse_involutive. repeat split; auto.
  - rewrite <- reverse_app, <- Hs. by rewrite reverse_involutive.
  - unfold spaces. by rewrite Forall_reverse.
Qed.

(** A text is its stripped form between two runs of spaces. *)
Lemma strip_spec (s : str) :
  exists ws1 ws2, s = ws1 ++ strip s ++ ws2 /\ spaces ws1 /\ spaces ws2.
Proof.
  unfold strip. destruct (lstrip_spec s) as (ws1 & Hs & Hw1 & _).
  destruct (rstrip_spec (lstrip s)) as (ws2 & Hr & Hw2 & _).
  exists ws1, ws2. repeat split; auto. by rewrite <- Hr.
Qed.

Lemma strip_app (ws1 s ws2 : str) :
  spaces ws1 -> spaces ws2 ->
  starts_outside is_space s -> starts_outside is_space (reverse s) ->
  strip (ws1 ++ s ++ ws2) = s.
Proof.
  intros H1 H2 Hs Hr. unfold strip.
  destruct s as [|c s].
  - simpl. rewrite lstrip_spaces; [done|]. by apply Forall_app.
  - rewrite lstrip_app; [by apply rstrip_app | done | done].
Qed.

Lemma is_space_cases (c : N) : is_space c = true -> c ∈ SPACES.
Proof. intros H. by apply bool_decide_eq_true in H. Qed.

Lemma is_kmb_cases (c : N) :
  is_kmb c = true -> c ∈ [66; 75; 77; 98; 107; 109; 8490]%N.
Proof. intros H. by apply bool_decide_eq_true in H. Qed.

Ltac list_cases H :=
  repeat (apply elem_of_cons in H as [->|H]); [..|by apply elem_of_nil in H].

Lemma space_not_digit (c : N) :
  is_space c = true -> is_ascii_digit c = false /\ c <> 46%N.
Proof. intros H%is_space_cases. unfold SPACES in H. list_cases H; by vm_compute. Qed.

Lemma kmb_not_digit (c : N) :
  is_kmb c = true -> is_ascii_digit c = false /\ c <> 46%N.
Proof. intros H%is_kmb_cases. list_cases H; by vm_compute. Qed.

Lemma kmb_not_space (c : N) : is_kmb c = true -> is_space c = false.
Proof. intros H%is_kmb_cases. list_cases H; by vm_compute. Qed.

Lemma digit_not_space (c : N) : is_ascii_digit c = true -> is_space c = false.
Proof.
  intros Hd. destruct (is_space c) eqn:Hs; [|done].
  apply space_not_digit in Hs as [Hs _]. congruence.
Qed.

Lemma point_not_space : is_space 46 = false.
Proof. by vm_compute. Qed.

Lemma point_not_digit : is_ascii_digit 46 = false.
Proof. by vm_compute. Qed.

Lemma damage_suffix_Some (s : str) (group2 : option N) :
  damage_suffix s = Some group2 ->
  exists ws2 ws3,
    s = ws2 ++ option_list group2 ++ ws3 /\ spaces ws2 /\ spaces ws3 /\
    (forall c, group2 = Some c -> is_kmb c = true).
Proof.
  unfold damage_suffix. destruct (lstrip_spec s) as (ws2 & Hs & Hw2 & _).
  destruct (lstrip s) as [|c s'] eqn:Hl.
  - intros [= <-]. exists ws2, []. by repeat split; [| |constructor|].
  - destruct (is_kmb c) eqn:Hc; [|done].
    destruct (lstrip_spec s') as (ws3 & Hs' & Hw3 & _).
    destruct (lstrip s'); [|done]. intros [= <-].
    rewrite app_nil_r in Hs'. subst s'. exists ws2, ws3.
    repeat split; auto. by intros ? [= <-].
Qed.

Lemma damage_suffix_app (ws2 ws3 : str) (group2 : option N) :
  spaces ws2 -> spaces ws3 ->
  (forall c, group2 = Some c -> is_kmb c = true) ->
  damage_suffix (ws2 ++ option_list group2 ++ ws3) = Some group2.
Proof.
  intros H2 H3 Hg. unfold damage_suffix. destruct group2 as [c|]; simpl.
  - rewrite lstrip_app; [|done|simpl; by apply kmb_not_space, Hg].
    rewrite (Hg c eq_refl). by rewrite lstrip_spaces.
  - rewrite lstrip_spaces; [done|]. by apply Forall_app.
Qed.

(** What may follow group 1: a space, a suffix, or nothing, and so neither
    a digit nor a point. *)
Lemma suffix_starts_outside (ws2 ws3 : str) (group2 : option N) :
  spaces ws2 -> spaces ws3 ->
  (forall c, group2 = Some c -> is_kmb c = true) ->
  starts_outside is_ascii_digit (ws2 ++ option_list group2 ++ ws3) /\
  head (ws2 ++ option_list group2 ++ ws3) <> Some 46%N.
Proof.
  intros H2 H3 Hg. destruct ws2 as [|c ws2]; simpl.
  - destruct group2 as [c|]; simpl.
    + destruct (kmb_not_digit c (Hg c eq_refl)). split; [done | congruence].
    + destruct ws3 as [|c ws3]; simpl; [done|].
      inversion H3; subst. destruct (space_not_digit c); [done|].
      split; [done | congruence].
  - inversion H2; subst. destruct (space_not_digit c); [done|].
    split; [done | congruence].
Qed.

Lemma _DAMAGE_RE_Some (s group1 : str) (group2 : option N) :
  _DAMAGE_RE s = Some (group1, group2) ->
  exists ws1 ws2 ws3,
    s = ws1 ++ group1 ++ ws2 ++ option_list group2 ++ ws3 /\
    spaces ws1 /\ spaces ws2 /\ spaces ws3 /\ decimal_number group1 /\
    (forall c, group2 = Some c -> is_kmb c = true).
Proof.
  unfold _DAMAGE_RE. destruct (lstrip_spec s) as (ws1 & Hs & Hw1 & _).
  destruct (span is_ascii_digit (lstrip s)) as [whole s2] eqn:Hwhole.
  apply span_spec in Hwhole as (Hl & Hdw & _).
  assert (Hplain :
    match whole with
    | [] => None
    | _ => group2' ← damage_suffix s2; Some (whole, group2')
    end = Some (group1, group2) ->
    exists ws1 ws2 ws3,
      s = ws1 ++ group1 ++ ws2 ++ option_list group2 ++ ws3 /\
      spaces ws1 /\ spaces ws2 /\ spaces ws3 /\ decimal_number group1 /\
      (forall c, group2 = Some c -> is_kmb c = true)).
  { destruct whole as [|d whole]; [done|].
    intros (g & Hg & [= <- <-])%bind_Some.
    apply damage_suffix_Some in Hg as (ws2 & ws3 & -> & H2 & H3 & Hk).
    exists ws1, ws2, ws3. rewrite Hs, Hl. repeat split; auto.
    exists (d :: whole), []. repeat split; auto. constructor. }
  destruct s2 as [|c s2']; [done|].
  destruct (decide (c = 46%N)) as [->|Hne]; cycle 1.
  { destruct c as [|p]; [done|].
    do 6 (destruct p as [p|p|]; try done). }
  destruct (span is_ascii_digit s2') as [frac s3] eqn:Hfrac.
  apply span_spec in Hfrac as (-> & Hdf & _).
  destruct frac as [|d frac]; [done|].
  destruct (whole ++ 46%N :: d :: frac) as [|x g] eqn:Hg; [by destruct whole|].
  rewrite <- Hg. intros (g2 & Hg2 & [= <- <-])%bind_Some.
  apply damage_suffix_Some in Hg2 as (ws2 & ws3 & -> & H2 & H3 & Hk).
  exists ws1, ws2, ws3. rewrite Hs, Hl. repeat split; auto.
  - by rewrite <- !app_assoc.
  - exists whole, (d :: frac). repeat split; auto.
Qed.

Lemma _DAMAGE_RE_app (ws1 group1 ws2 ws3 : str) (group2 : option N) :
  spaces ws1 -> spaces ws2 -> spaces ws3 -> decimal_number group1 ->
  (forall c, group2 = Some c -> is_kmb c = true) ->
  _DAMAGE_RE (ws1 ++ group1 ++ ws2 ++ option_list group2 ++ ws3)
  = Some (group1, group2).
Proof.
  intros H1 H2 H3 (whole & frac & Hdw & Hdf & Hnum) Hk.
  pose proof (damage_suffix_app ws2 ws3 group2 H2 H3 Hk) as Hsuf.
  destruct (suffix_starts_outside ws2 ws3 group2 H2 H3 Hk) as [Hrd Hrp].
  set (rest := ws2 ++ option_list group2 ++ ws3) in *. clearbody rest.
  unfold _DAMAGE_RE.
  destruct Hnum as [[-> Hne]|[-> Hne]].
  - destruct whole as [|d whole]; [done|]. inversion Hdw; subst.
    rewrite lstrip_app; [|done|simpl; by apply digit_not_space].
    rewrite span_app by done.
    destruct rest as [|c r]; [by rewrite Hsuf|].
    assert (Hc : c <> 46%N) by (simpl in Hrp; congruence).
    destruct c as [|p]; [by rewrite Hsuf|].
    do 6 (destruct p as [p|p|]; try (by rewrite Hsuf)).
    done.
  - destruct frac as [|d frac]; [done|]. inversion Hdf; subst.
    rewrite lstrip_app; [|done|].
    2:{ destruct whole as [|w whole]; simpl; [apply point_not_space|].
        inversion Hdw; subst. by apply digit_not_space. }
    rewrite <- app_assoc, span_app; [|done|simpl; apply point_not_digit].
    cbn [app].
    assert (Hsp : span is_ascii_digit (d :: frac ++ rest) = (d :: frac, rest))
      by (by apply (span_app is_ascii_digit (d :: frac) rest)).
    rewrite Hsp.
    destruct (whole ++ 46%N :: d :: frac) as [|x g] eqn:Hg; [by destruct whole|].
    by rewrite Hsuf.
Qed.

Lemma assoc_None (c : N) (table : list (N * str)) :
  Forall (fun kv => kv.1 <> c) table -> assoc c table = None.
Proof.
  induction 1 as [|[k v] table Hk _ IH]; [done|].
  simpl in *. by destruct (N.eqb_spec k c).
Qed.

Lemma assoc_below (c : N) : (c < 223)%N -> assoc c UPPER_SPECIAL = None.
Proof.
  intros Hc. apply assoc_None. unfold UPPER_SPECIAL.
  repeat (constructor; [simpl; lia|]). constructor.
Qed.

(** A digit or a point is its own upper-case form. *)
Lemma upper_char_number (c : N) :
  is_ascii_digit c = true \/ c = 46%N -> upper_char c = [c].
Proof.
  intros Hc. assert (46 <= c <= 57)%N as Hr.
  { destruct Hc as [Hc| ->]; [|lia]. unfold is_ascii_digit in Hc.
    apply andb_true_iff in Hc as [?%N.leb_le ?%N.leb_le]. lia. }
  unfold upper_char.
  destruct (N.leb_spec 97 c); [lia|]. cbn [andb].
  rewrite assoc_below by lia. reflexivity.
Qed.

(** A text that starts with a digit or a point is none of the markers of
    a missing amount. *)
Lemma number_not_null (c : N) (s : str) :
  is_ascii_digit c = true \/ c = 46%N ->
  bool_decide (c :: s = []) || bool_decide (upper (c :: s) = lit "NA")
  || bool_decide (upper (c :: s) = lit "N/A") = false.
Proof.
  intros Hc. unfold upper. cbn [mbind list_bind]. 
  change (mbind upper_char s) with (upper s).
  rewrite (upper_char_number c Hc).
  assert (c <> 78%N).
  { destruct Hc as [Hc| ->]; [|done]. intros ->. by vm_compute in Hc. }
  rewrite !bool_decide_eq_false_2; [done| | |done].
  - intros [= ? _]. done.
  - intros [= ? _]. done.
Qed.

Lemma decimal_number_ends (num : str) :
  decimal_number num ->
  (exists c s, num = c :: s /\ (is_ascii_digit c = true \/ c = 46%N)) /\
  starts_outside is_space (reverse num).
Proof.
  intros (whole & frac & Hdw & Hdf & [[-> Hne]|[-> Hne]]).
  - split.
    + destruct whole as [|c s]; [done|]. inversion Hdw; subst. exists c, s. auto.
    + destruct (reverse whole) as [|c s] eqn:Hr; [done|]. simpl.
      apply digit_not_space.
      assert (c ∈ whole) by (apply elem_of_reverse; rewrite Hr; by left).
      unfold digits in Hdw. rewrite Forall_forall in Hdw. by apply Hdw.
  - split.
    + destruct whole as [|c s]; [exists 46%N, frac; auto|].
      inversion Hdw; subst. exists c, (s ++ 46%N :: frac). auto.
    + rewrite reverse_app, reverse_cons.
      destruct (reverse frac) as [|c s] eqn:Hr.
      { apply (f_equal reverse) in Hr. rewrite reverse_involutive in Hr. done. }
      simpl. apply digit_not_space.
      assert (c ∈ frac) by (apply elem_of_reverse; rewrite Hr; by left).
      unfold digits in Hdf. rewrite Forall_forall in Hdf. by apply Hdf.
Qed.

(** The value of a text in which the pattern finds [group1] and [group2]. *)
Lemma parse_damage_text_groups (ws1 group1 ws2 ws3 : str) (group2 : option N) :
  spaces ws1 -> spaces ws2 -> spaces ws3 -> decimal_number group1 ->
  (forall c, group2 = Some c -> is_kmb c = true) ->
  parse_damage_text (ws1 ++ group1 ++ ws2 ++ option_list group2 ++ ws3)
  = fmul (float_of_decimal group1) (group2_mult group2).
Proof.
  intros H1 H2 H3 Hnum Hk.
  destruct (decimal_number_ends group1 Hnum) as [(c & s & Hg & Hc) Hend].
  assert (Hstrip : exists ws2', spaces ws2' /\
            strip (ws1 ++ group1 ++ ws2 ++ option_list group2 ++ ws3)
            = group1 ++ ws2' ++ option_list group2).
  { destruct group2 as [k|]; simpl.
    - exists ws2. split; [done|].
      replace (ws1 ++ group1 ++ ws2 ++ k :: ws3)
        with (ws1 ++ (group1 ++ ws2 ++ [k]) ++ ws3)
        by (by rewrite <- !app_assoc).
      apply strip_app; auto.
      + rewrite Hg. simpl. destruct Hc as [Hc| ->];
          [by apply digit_not_space | apply point_not_space].
      + rewrite !reverse_app. simpl. by apply kmb_not_space, Hk.
    - exists []. split; [constructor|]. rewrite !app_nil_r.
      apply strip_app; auto; [by apply Forall_app|].
      rewrite Hg. simpl. destruct Hc as [Hc| ->];
        [by apply digit_not_space | apply point_not_space]. }
  destruct Hstrip as (ws2' & H2' & Hstrip).
  unfold parse_damage_text. rewrite Hstrip.
  assert (Hre : _DAMAGE_RE (group1 ++ ws2' ++ option_list group2)
                = Some (group1, group2)).
  { pose proof (_DAMAGE_RE_app [] group1 ws2' [] group2) as Hre.
    rewrite app_nil_r in Hre. apply Hre; auto; constructor. }
  rewrite Hre. rewrite Hg. cbn [app]. rewrite number_not_null by done.
  reflexivity.
Qed.

(** A text for which the result is not zero holds a number and a suffix
    that the pattern accepts. *)
Lemma parse_damage_text_other (s : str) :
  parse_damage_text s = ZERO \/
  exists ws1 group1 ws2 ws3 group2,
    s = ws1 ++ group1 ++ ws2 ++ option_list group2 ++ ws3 /\
    spaces ws1 /\ spaces ws2 /\ spaces ws3 /\ decimal_number group1 /\
    (forall c, group2 = Some c -> is_kmb c = true).
Proof.
  unfold parse_damage_text.
  destruct (bool_decide (strip s = []) || bool_decide (upper (strip s) = lit "NA")
            || bool_decide (upper (strip s) = lit "N/A")); [by left|].
  destruct (_DAMAGE_RE (strip s)) as [[group1 group2]|] eqn:Hre; [|by left].
  right. apply _DAMAGE_RE_Some in Hre as (ws1 & ws2 & ws3 & Hs & H1 & H2 & H3 & Hn & Hk).
  destruct (strip_spec s) as (a & b & Hab & Ha & Hb).
  exists (a ++ ws1), group1, ws2, (ws3 ++ b), group2.
  repeat split; auto; try (by apply Forall_app).
  rewrite Hab at 1. rewrite Hs. by rewrite <- !app_assoc.
Qed.

Lemma suffix_multiplier_group2 (suffix : str) (mult : Z) :
  suffix_multiplier suffix = Some mult ->
  exists group2,
    suffix = option_list group2 /\
    (forall c, group2 = Some c -> is_kmb c = true) /\
    group2_mult group2 = float_lit mult.
Proof.
  unfold suffix_multiplier.
  repeat case_bool_decide; intros [= <-];
    repeat match goal with
           | H : _ \/ _ |- _ => destruct H
           end; subst.
  - by exists None.
  - exists (Some 75%N). split; [done|]. split; [by intros ? [= <-]|]. by vm_compute.
  - exists (Some 107%N). split; [done|]. split; [by intros ? [= <-]|]. by vm_compute.
  - exists (Some 77%N). split; [done|]. split; [by intros ? [= <-]|]. by vm_compute.
  - exists (Some 109%N). split; [done|]. split; [by intros ? [= <-]|]. by vm_compute.
  - exists (Some 66%N). split; [done|]. split; [by intros ? [= <-]|]. by vm_compute.
  - exists (Some 98%N). split; [done|]. split; [by intros ? [= <-]|]. by vm_compute.
Qed.

Lemma kmb_suffix (c : N) :
  is_kmb c = true -> is_Some (suffix_multiplier [c]) \/ c = KELVIN.
Proof.
  intros H%is_kmb_cases.
  list_cases H; (by right) || (left; vm_compute; by eexists).
Qed.

Lemma float_of_int_cases (n : Z) :
  (exists f, float_of_int n = Return f) \/ float_of_int n = Raise OverflowError.
Proof.
  unfold float_of_int. destruct (binary_normalize PREC EMAX n 0 false); eauto.
Qed.

(** C2, as the code has it. [parse_damage_to_dollars] returns a float for
    every value but an integer that [float] cannot convert, whose
    [OverflowError] it lets through. [None] gives zero; a float that is
    not NaN is returned as it is, and an integer or a boolean as [float]
    converts it; a text that is a decimal number and one of the suffixes
    K, M, B in either case, or none, with spaces around them, gives the
    float of the number times the float of the multiplier; every other
    text gives zero, the texts apart in which the Kelvin sign stands for
    the suffix, of which nothing is said. The examples of the
    specification follow. *)
Theorem parse_damage_to_dollars_rules :
  (forall v,
     (exists x, parse_damage_to_dollars v = Return x) \/
     (exists n, v = VInt n /\ float_of_int n = Raise OverflowError /\
                parse_damage_to_dollars v = Raise OverflowError)) /\
  parse_damage_to_dollars VNone = Return ZERO /\
  (forall f, is_nan f = false -> parse_damage_to_dollars (VFloat f) = Return f) /\
  (forall n, parse_damage_to_dollars (VInt n) = float_of_int n) /\
  (forall b, parse_damage_to_dollars (VBool b)
             = Return (float_lit (if b then 1 else 0))) /\
  (forall s num suffix mult,
     damage_text s num suffix -> suffix_multiplier suffix = Some mult ->
     parse_damage_to_dollars (VStr s)
     = Return (fmul (float_of_decimal num) (float_lit mult))) /\
  (forall s,
     (forall num suffix,
        damage_text s num suffix ->
        suffix_multiplier suffix = None /\ suffix <> [KELVIN]) ->
     parse_damage_to_dollars (VStr s) = Return ZERO) /\
  parse_damage_to_dollars (VStr (lit "")) = Return ZERO /\
  parse_damage_to_dollars (VStr (lit "NA")) = Return ZERO /\
  parse_damage_to_dollars (VStr (lit "N/A")) = Return ZERO /\
  parse_damage_to_dollars (VStr (lit "garbage")) = Return ZERO /\
  parse_damage_to_dollars (VStr (lit "10.5K")) = Return (float_lit 10500) /\
  parse_damage_to_dollars (VStr (lit "2M")) = Return (float_lit 2000000) /\
  parse_damage_to_dollars (VStr (lit "0.75B")) = Return (float_lit 750000000) /\
  parse_damage_to_dollars (VStr (lit "500")) = Return (float_lit 500) /\
  parse_damage_to_dollars (VFloat (float_of_decimal (lit "123.4")))
  = Return (float_of_decimal (lit "123.4")).
Proof.
  split.
  { intros [| [|] |n|f|s|text]; simpl; try (left; by eexists).
    - destruct (float_of_int_cases n) as [[f Hf]|Hf]; [left; by exists f|].
      right. by exists n.
    - left. destruct (is_nan f); by eexists. }
  split; [done|].
  split; [by intros f; simpl; intros ->|].
  split; [done|].
  split; [by intros [|]; vm_compute|].
  split.
  { intros s num suffix mult (ws1 & ws2 & ws3 & -> & H1 & H2 & H3 & Hnum) Hm.
    apply suffix_multiplier_group2 in Hm as (group2 & -> & Hk & <-).
    simpl. f_equal. by apply parse_damage_text_groups. }
  split.
  { intros s Hother. simpl. f_equal.
    destruct (parse_damage_text_other s)
      as [Hz|(ws1 & group1 & ws2 & ws3 & group2 & -> & H1 & H2 & H3 & Hnum & Hk)];
      [done|].
    exfalso.
    destruct (Hother group1 (option_list group2)) as [Hnone Hkelvin];
      [by exists ws1, ws2, ws3|].
    destruct group2 as [c|]; [|by vm_compute in Hnone]. simpl in *.
    destruct (kmb_suffix c (Hk c eq_refl)) as [[m Hm]| ->]; congruence. }
  repeat split; by vm_compute.
Qed.

(** C2, as stated, fails: the function is not total. An integer beyond
    the largest float is numeric, and [float] raises on it. *)
Lemma parse_damage_to_dollars_not_total :
  parse_damage_to_dollars (VInt (10 ^ 400)) = Raise OverflowError.
Proof. by vm_compute. Qed.

(** The Kelvin sign is accepted as a suffix by the pattern and is not one
    of the three letters afterwards: the amount is returned as it is. *)
Example parse_damage_to_dollars_kelvin :
  parse_damage_to_dollars (VStr (lit "5" ++ [KELVIN])) = Return (float_lit 5).
Proof. by vm_compute. Qed.

Lemma parse_damage_to_dollars_rules_witness :
  parse_damage_to_dollars (VStr (lit " 1.5 k "))
  = Return (fmul (float_of_decimal (lit "1.5")) (float_lit 1000)).
Proof.
  apply (proj1 (proj2 (proj2 (proj2 (proj2 (proj2
           parse_damage_to_dollars_rules)))))
           (lit " 1.5 k ") (lit "1.5") (lit "k") 1000).
  - exists (lit " "), (lit " "), (lit " ").
    split; [vm_compute; reflexivity|].
    split; [repeat constructor|]. split; [repeat constructor|].
    split; [repeat constructor|].
    exists (lit "1"), (lit "5").
    split; [repeat constructor|]. split; [repeat constructor|].
    right. split; [vm_compute; reflexivity|]. vm_compute. discriminate.
  - vm_compute. reflexivity.
Defined.

(** C10: a float that is not a number is not passed through: its text is
    [nan], which the pattern rejects, and the result is zero. *)
Theorem parse_damage_to_dollars_nan (f : float) :
  is_nan f = true -> parse_damage_to_dollars (VFloat f) = Return ZERO.
Proof. intros Hf. simpl. rewrite Hf. by vm_compute. Qed.

Lemma parse_damage_to_dollars_nan_witness :
  parse_damage_to_dollars (VFloat S754_nan) = Return ZERO.
Proof. apply (parse_damage_to_dollars_nan S754_nan). vm_compute. reflexivity. Defined.

(** ** The files of each year *)

Lemma str_le_refl (a : str) : str_le a a = true.
Proof.
  induction a as [|x a IH]; [done|]. simpl.
  destruct (N.ltb_spec x x); [done|]. by rewrite N.eqb_refl.
Qed.

Lemma str_le_total (a b : str) : str_le a b = false -> str_le b a = true.
Proof.
  revert b; induction a as [|x a IH]; intros [|y b]; simpl; try done.
  destruct (N.ltb_spec x y); [done|].
  destruct (N.eqb_spec x y) as [->|Hne].
  - intros H'. destruct (N.ltb_spec y y); [done|]. rewrite N.eqb_refl. by apply IH.
  - intros _. destruct (N.ltb_spec y x); [done | lia].
Qed.

Lemma str_le_trans (a b c : str) :
  str_le a b = true -> str_le b c = true -> str_le a c = true.
Proof.
  revert b c; induction a as [|x a IH]; intros [|y b] [|z c]; simpl; try done.
  destruct (N.ltb_spec x y), (N.ltb_spec y z), (N.ltb_spec x z); try done; try lia.
  - destruct (N.eqb_spec y z); [lia | done].
  - destruct (N.eqb_spec x y); [lia | done].
  - destruct (N.eqb_spec x y), (N.eqb_spec y z), (N.eqb_spec x z);
      try done; try lia. apply IH.
Qed.

Lemma str_le_antisym (a b : str) :
  str_le a b = true -> str_le b a = true -> a = b.
Proof.
  revert b; induction a as [|x a IH]; intros [|y b]; simpl; try done.
  destruct (N.ltb_spec x y), (N.ltb_spec y x); try lia.
  - by destruct (N.eqb_spec y x); [lia|].
  - by destruct (N.eqb_spec x y); [lia|].
  - destruct (N.eqb_spec x y) as [->|]; [|done]. rewrite N.eqb_refl.
    intros H1 H2. f_equal. by apply IH.
Qed.

Lemma elem_of_insert_sorted (x y : str) (l : list str) :
  y ∈ insert_sorted x l <-> y = x \/ y ∈ l.
Proof.
  induction l as [|z l IH]; simpl.
  - rewrite list_elem_of_singleton. split; [auto|]. intros [|H]; [done|].
    by apply elem_of_nil in H.
  - destruct (str_le z x); rewrite !elem_of_cons, ?IH; tauto.
Qed.

Lemma insert_sorted_sorted (x : str) (l : list str) :
  StronglySorted str_order l -> StronglySorted str_order (insert_sorted x l).
Proof.
  induction 1 as [|z l Hl IH Hz]; simpl.
  - by repeat constructor.
  - destruct (str_le z x) eqn:Hzx.
    + constructor; [done|]. apply Forall_forall. intros y [->|Hy]%elem_of_insert_sorted.
      * done.
      * rewrite Forall_forall in Hz. by apply Hz.
    + apply str_le_total in Hzx. constructor; [by constructor|].
      constructor; [done|]. apply Forall_forall. intros y Hy.
      rewrite Forall_forall in Hz. by apply (str_le_trans x z y), Hz.
Qed.

Lemma sorted_spec (l : list str) :
  StronglySorted str_order (sorted l) /\ forall x, x ∈ sorted l <-> x ∈ l.
Proof.
  unfold sorted.
  assert (forall acc,
            StronglySorted str_order acc ->
            StronglySorted str_order (foldl (fun acc x => insert_sorted x acc) acc l) /\
            forall x, x ∈ foldl (fun acc x => insert_sorted x acc) acc l
                      <-> x ∈ acc \/ x ∈ l) as H.
  { induction l as [|y l IH]; intros acc Hacc; simpl.
    - split; [done|]. intros x. rewrite elem_of_nil. tauto.
    - destruct (IH (insert_sorted y acc)) as [Hs He];
        [by apply insert_sorted_sorted|].
      split; [done|]. intros x.
      rewrite He, elem_of_insert_sorted, elem_of_cons. tauto. }
  destruct (H []) as [Hs He]; [constructor|]. split; [done|].
  intros x. rewrite He, elem_of_nil. tauto.
Qed.

(** The last of the sorted texts is one of the texts, and none is after
    it. *)
Lemma last_sorted (l : list str) (p : str) :
  last (sorted l) = Some p -> p ∈ l /\ forall x, x ∈ l -> str_le x p = true.
Proof.
  destruct (sorted_spec l) as [Hs He].
  intros [l' Hl]%last_Some. rewrite Hl in Hs, He.
  split; [apply He, elem_of_app; right; by left|].
  intros x [Hx|Hx%list_elem_of_singleton]%He%elem_of_app.
  - apply StronglySorted_app in Hs as (Hall & _ & _). apply (Hall x p Hx). by left.
  - subst. apply str_le_refl.
Qed.

Lemma last_sorted_None (l : list str) : last (sorted l) = None <-> l = [].
Proof.
  destruct (sorted_spec l) as [_ He]. rewrite last_None. split.
  - intros Hn. destruct l as [|x l]; [done|].
    assert (x ∈ sorted (x :: l)) as Hx by (apply He; by left).
    rewrite Hn in Hx. by apply elem_of_nil in Hx.
  - by intros ->.
Qed.

Lemma glob_match_year_file (year : Z) (path : str) :
  glob_match year path = true <-> year_file year path.
Proof.
  unfold glob_match, year_file. split.
  - destruct (strip_prefix (glob_head year) path) as [rest|] eqn:Hp; [|done].
    apply strip_prefix_Some in Hp as ->.
    intros [r Hr%strip_prefix_Some]%bool_decide_eq_true.
    exists (reverse r). f_equal.
    apply (f_equal reverse) in Hr.
    by rewrite reverse_involutive, reverse_app, reverse_involutive in Hr.
  - intros [star ->]. rewrite strip_prefix_app.
    apply bool_decide_eq_true. exists (reverse star).
    apply strip_prefix_Some. by rewrite reverse_app.
Qed.

Lemma elem_of_glob (dir : raw_dir) (year : Z) (path : str) :
  path ∈ glob dir year <-> path ∈ dom dir /\ year_file year path.
Proof.
  unfold glob. rewrite list_elem_of_filter, elem_of_elements, glob_match_year_file.
  tauto.
Qed.

Lemma glob_nil (dir : raw_dir) (year : Z) :
  glob dir year = [] <-> ~ has_year_file dir year.
Proof.
  split.
  - intros Hg (path & Hd & Hy).
    assert (path ∈ glob dir year) as Hin by (by apply elem_of_glob).
    rewrite Hg in Hin. by apply elem_of_nil in Hin.
  - intros Hno. destruct (glob dir year) as [|path l] eqn:Hg; [done|].
    exfalso. apply Hno. exists path. apply elem_of_glob. rewrite Hg. by left.
Qed.

Lemma has_year_file_dec (dir : raw_dir) (year : Z) :
  has_year_file dir year \/ ~ has_year_file dir year.
Proof.
  destruct (glob dir year) as [|path l] eqn:Hg.
  - right. by apply glob_nil.
  - left. exists path. apply elem_of_glob. rewrite Hg. by left.
Qed.

Lemma last_glob (dir : raw_dir) (year : Z) (path : str) :
  last (sorted (glob dir year)) = Some path -> last_year_file dir year path.
Proof.
  intros [Hin Hmax]%last_sorted. apply elem_of_glob in Hin as [Hd Hy].
  repeat split; auto. intros q Hq Hqy. apply Hmax. by apply elem_of_glob.
Qed.

(** The generator over years that all have a file. *)
Lemma iter_years_all (dir : raw_dir) (years : list Z) :
  Forall (has_year_file dir) years ->
  exists paths,
    iter_years dir years = (paths, None) /\
    Forall2 (last_year_file dir) years paths.
Proof.
  induction 1 as [|year years Hy _ (paths & Hp & Hall)]; simpl.
  - by exists [].
  - destruct (last (sorted (glob dir year))) as [path|] eqn:Hl.
    + rewrite Hp. exists (path :: paths). split; [done|].
      constructor; [by apply last_glob | done].
    + apply last_sorted_None, glob_nil in Hl. done.
Qed.

(** The generator up to the first year without a file. *)
Lemma iter_years_first_missing (dir : raw_dir) (before after : list Z) (year : Z) :
  Forall (has_year_file dir) before -> ~ has_year_file dir year ->
  exists paths,
    iter_years dir (before ++ year :: after)
    = (paths, Some (FileNotFoundError (NO_CSV_MSG year))) /\
    Forall2 (last_year_file dir) before paths.
Proof.
  intros Hb Hno. induction Hb as [|y before Hy _ (paths & Hp & Hall)]; simpl.
  - apply glob_nil in Hno. rewrite Hno. by exists [].
  - destruct (last (sorted (glob dir y))) as [path|] eqn:Hl.
    + rewrite Hp. exists (path :: paths). split; [done|].
      constructor; [by apply last_glob | done].
    + apply last_sorted_None, glob_nil in Hl. done.
Qed.

Lemma iter_years_raises (dir : raw_dir) (years : list Z) :
  is_Some (iter_years dir years).2 <->
  exists year, year ∈ years /\ ~ has_year_file dir year.
Proof.
  induction years as [|year years IH]; simpl.
  - split; [by intros [? ?]|]. by intros (? & ?%elem_of_nil & _).
  - destruct (last (sorted (glob dir year))) as [path|] eqn:Hl.
    + destruct (iter_years dir years) as [paths e]. simpl in *. rewrite IH.
      split.
      * intros (y & Hy & Hno). exists y. split; [by right | done].
      * intros (y & [->|Hy]%elem_of_cons & Hno); [|by exists y].
        apply last_glob in Hl as (Hd & Hf & _). destruct Hno. by exists path.
    + apply last_sorted_None, glob_nil in Hl. simpl. split; [|by eexists].
      intros _. exists year. split; [by left | done].
Qed.

Lemma elem_of_range (a b y : Z) : y ∈ range a b <-> a <= y < b.
Proof.
  unfold range. rewrite list_elem_of_fmap. split.
  - intros (i & -> & Hi%elem_of_seq). lia.
  - intros Hy. exists (Z.to_nat (y - a)). split; [lia|]. apply elem_of_seq. lia.
Qed.

Lemma fmap_seq_shift {A} (f g : nat -> A) (k j n : nat) :
  (forall i, f (k + i)%nat = g (j + i)%nat) -> f <$> seq k n = g <$> seq j n.
Proof.
  revert k j; induction n as [|n IH]; intros k j H; simpl; [done|].
  f_equal.
  - specialize (H 0%nat). by rewrite !Nat.add_0_r in H.
  - apply IH. intros i. specialize (H (S i)). by rewrite !Nat.add_succ_r in H.
Qed.

Lemma range_split (a b y : Z) :
  a <= y < b -> range a b = range a y ++ y :: range (y + 1) b.
Proof.
  intros Hy. unfold range.
  replace (Z.to_nat (b - a)) with (Z.to_nat (y - a) + S (Z.to_nat (b - (y + 1))))%nat
    by lia.
  rewrite seq_app, fmap_app. f_equal. simpl. f_equal; [lia|].
  apply fmap_seq_shift. intros i. lia.
Qed.

(** C6: when every year of the range has a file, [iter_year_files] yields
    for each year, in order, the lexicographically last of its files, and
    raises nothing; when some year has none, it yields those of the years
    before the first such year and raises [FileNotFoundError] for that
    year; so it raises exactly when a year of the range has no file. *)
Theorem iter_year_files_last_or_raises (dir : raw_dir) (start_year end_year : Z) :
  ((forall y, start_year <= y <= end_year -> has_year_file dir y) ->
   exists paths,
     iter_year_files dir start_year end_year = (paths, None) /\
     Forall2 (last_year_file dir) (range start_year (end_year + 1)) paths) /\
  (forall y,
     start_year <= y <= end_year -> ~ has_year_file dir y ->
     (forall y', start_year <= y' < y -> has_year_file dir y') ->
     exists paths,
       iter_year_files dir start_year end_year
       = (paths, Some (FileNotFoundError (NO_CSV_MSG y))) /\
       Forall2 (last_year_file dir) (range start_year y) paths) /\
  (is_Some (iter_year_files dir start_year end_year).2 <->
   exists y, start_year <= y <= end_year /\ ~ has_year_file dir y).
Proof.
  unfold iter_year_files. repeat split.
  - intros Hall. apply iter_years_all, Forall_forall.
    intros y Hy%elem_of_range. apply Hall. lia.
  - intros y Hy Hno Hbefore.
    rewrite (range_split start_year (end_year + 1) y) by lia.
    apply iter_years_first_missing; [|done].
    apply Forall_forall. intros y' Hy'%elem_of_range. by apply Hbefore.
  - intros (y & Hy%elem_of_range & Hno)%iter_years_raises. exists y. split; [lia|done].
  - intros (y & Hy & Hno). apply iter_years_raises. exists y.
    split; [apply elem_of_range; lia | done].
Qed.

Lemma iter_year_files_last_or_raises_witness :
  iter_year_files RAW_2010_2011 2010 2011
  = ([lit "StormEvents_details-ftp_v1.0_d2010_c20220101.csv";
      lit "StormEvents_details-ftp_v1.0_d2011_c20210101.csv"], None) /\
  Forall2 (last_year_file RAW_2010_2011) [2010; 2011]
    [lit "StormEvents_details-ftp_v1.0_d2010_c20220101.csv";
     lit "StormEvents_details-ftp_v1.0_d2011_c20210101.csv"].
Proof.
  destruct (proj1 (iter_year_files_last_or_raises RAW_2010_2011 2010 2011))
    as (paths & Hpaths & Hlast).
  { intros y Hy. assert (y = 2010 \/ y = 2011) as [-> | ->] by lia.
    - exists (lit "StormEvents_details-ftp_v1.0_d2010_c20210101.csv"). split.
      + apply elem_of_dom. exists []. vm_compute. reflexivity.
      + exists (lit "20210101"). vm_compute. reflexivity.
    - exists (lit "StormEvents_details-ftp_v1.0_d2011_c20210101.csv"). split.
      + apply elem_of_dom. exists []. vm_compute. reflexivity.
      + exists (lit "20210101"). vm_compute. reflexivity. }
  assert (iter_year_files RAW_2010_2011 2010 2011
          = ([lit "StormEvents_details-ftp_v1.0_d2010_c20220101.csv";
              lit "StormEvents_details-ftp_v1.0_d2011_c20210101.csv"], None))
    as Hrun by (vm_compute; reflexivity).
  assert (paths = [lit "StormEvents_details-ftp_v1.0_d2010_c20220101.csv";
                   lit "StormEvents_details-ftp_v1.0_d2011_c20210101.csv"])
    as -> by congruence.
  split; [exact Hrun | exact Hlast].
Defined.

Example iter_year_files_2010_2011 :
  iter_year_files RAW_2010_2011 2010 2011 =
  ([lit "StormEvents_details-ftp_v1.0_d2010_c20220101.csv";
    lit "StormEvents_details-ftp_v1.0_d2011_c20210101.csv"], None).
Proof. vm_compute. reflexivity. Qed.

Example iter_year_files_2010_2012 :
  iter_year_files RAW_2010_2011 2010 2012 =
  ([lit "StormEvents_details-ftp_v1.0_d2010_c20220101.csv";
    lit "StormEvents_details-ftp_v1.0_d2011_c20210101.csv"],
   Some (FileNotFoundError (lit "No CSV found for year 2012 in data/raw"))).
Proof. vm_compute. reflexivity. Qed.

(** ** The rows of the target region *)

Lemma is_texas_in_region (r : event_row) : is_texas r = true <-> in_region r.
Proof.
  unfold is_texas, in_region, same_ignoring_case. split.
  - destruct (STATE r) as [s|]; [|done]. intros H%bool_decide_eq_true. by exists s.
  - intros (s & -> & Hs). by apply bool_decide_eq_true.
Qed.

Lemma filter_in_region (rows : list event_row) :
  filter in_region rows = filter (fun r => is_texas r = true) rows.
Proof. apply list_filter_iff. intros r. symmetry. apply is_texas_in_region. Qed.

Section TransformerFacts.

Variable to_numeric : value -> option value.

Lemma apply_parse_convertible (cells : list value) :
  Forall convertible cells -> apply_parse cells = Return (usd <$> cells).
Proof.
  induction 1 as [|v cells [x Hx] _ IH]; [done|].
  simpl. unfold usd at 1. by rewrite Hx, IH.
Qed.

Lemma apply_coerce_Some (cells : list value) :
  Forall (fun v => is_Some (to_numeric v)) cells ->
  apply_coerce to_numeric cells = Return (numeric to_numeric <$> cells).
Proof.
  induction 1 as [|v cells [x Hx] _ IH]; [done|].
  simpl. unfold coerce, numeric at 1. by rewrite Hx, IH.
Qed.

Lemma assemble_clean_row (chunk : list event_row) :
  assemble chunk (usd <$> (DAMAGE_PROPERTY <$> chunk))
    (usd <$> (DAMAGE_CROPS <$> chunk))
    (numeric to_numeric <$> (INJURIES_DIRECT <$> chunk))
    (numeric to_numeric <$> (INJURIES_INDIRECT <$> chunk))
    (numeric to_numeric <$> (DEATHS_DIRECT <$> chunk))
    (numeric to_numeric <$> (DEATHS_INDIRECT <$> chunk))
    (numeric to_numeric <$> (MAGNITUDE <$> chunk))
  = clean_row to_numeric <$> chunk.
Proof.
  unfold assemble. induction chunk as [|r chunk IH]; [done|].
  simpl. f_equal. apply IH.
Qed.

Lemma clean_chunk_readable (chunk : list event_row) :
  Forall (readable to_numeric) chunk ->
  clean_chunk to_numeric chunk = Return (clean_row to_numeric <$> chunk).
Proof.
  intros Hall. unfold clean_chunk.
  rewrite !apply_parse_convertible, !apply_coerce_Some.
  - cbn [bind]. f_equal. apply assemble_clean_row.
  - apply Forall_fmap. eapply Forall_impl; [done|]. by intros r (_ & _ & _ & _ & _ & ?).
  - apply Forall_fmap. eapply Forall_impl; [done|]. by intros r (_ & _ & _ & _ & ? & _).
  - apply Forall_fmap. eapply Forall_impl; [done|]. by intros r (_ & _ & _ & ? & _ & _).
  - apply Forall_fmap. eapply Forall_impl; [done|]. by intros r (_ & _ & ? & _ & _ & _).
  - apply Forall_fmap. eapply Forall_impl; [done|]. by intros r (_ & ? & _ & _ & _ & _).
  - apply Forall_fmap. eapply Forall_impl; [done|]. by intros r [[_ ?] _].
  - apply Forall_fmap. eapply Forall_impl; [done|]. by intros r [[? _] _].
Qed.

Lemma filter_chunks_readable (chunks : list (list event_row)) :
  Forall (readable to_numeric) (filter (fun r => is_texas r = true) (concat chunks)) ->
  exists tx_chunks,
    filter_chunks to_numeric chunks = Return tx_chunks /\
    concat tx_chunks
    = clean_row to_numeric <$> filter (fun r => is_texas r = true) (concat chunks).
Proof.
  induction chunks as [|chunk chunks IH]; simpl; [by exists []|].
  rewrite filter_app, Forall_app. intros [Hc Hrest].
  destruct (IH Hrest) as (tx_chunks & Htx & Hconcat).
  destruct (filter (fun r => is_texas r = true) chunk) as [|r kept] eqn:Hk.
  - exists tx_chunks. by split.
  - rewrite clean_chunk_readable by done. simpl. rewrite Htx. simpl.
    exists ((clean_row to_numeric <$> r :: kept) :: tx_chunks). split; [done|].
    simpl. by rewrite Hconcat, fmap_app.
Qed.

Lemma batches_from_concat (fuel n : nat) (rows : list event_row) :
  (0 < n)%nat -> (length rows <= fuel)%nat ->
  concat (batches_from fuel n rows) = rows.
Proof.
  intros Hn. revert rows; induction fuel as [|fuel IH]; intros rows Hlen.
  - destruct rows; [done | simpl in Hlen; lia].
  - destruct rows as [|r rows]; [done|].
    cbn [batches_from concat]. rewrite IH.
    + apply take_drop.
    + rewrite length_drop. simpl in *. lia.
Qed.

Lemma read_csv_concat (rows : list event_row) (chunksize : positive) :
  concat (read_csv rows chunksize) = rows.
Proof.
  unfold read_csv. destruct rows as [|r rows]; [done|].
  apply batches_from_concat; lia.
Qed.

(** The table that [load_filter_tx_one_file] returns: the normalized
    records of the rows of the region, in the order of the file. *)
Lemma load_filter_tx_one_file_readable (rows : list event_row) (chunksize : positive) :
  Forall (readable to_numeric) (filter (fun r => is_texas r = true) rows) ->
  load_filter_tx_one_file to_numeric rows chunksize
  = Return (clean_row to_numeric <$> filter (fun r => is_texas r = true) rows).
Proof.
  intros Hall. unfold load_filter_tx_one_file.
  destruct (filter_chunks_readable (read_csv rows chunksize))
    as (tx_chunks & -> & Hconcat); [by rewrite read_csv_concat|].
  rewrite read_csv_concat in Hconcat. simpl. rewrite <- Hconcat.
  by destruct tx_chunks.
Qed.

Lemma apply_parse_Return (cells : list value) (xs : list float) :
  apply_parse cells = Return xs -> Forall convertible cells.
Proof.
  revert xs; induction cells as [|v cells IH]; intros xs; [constructor|].
  simpl. destruct (parse_damage_to_dollars v) as [x|e] eqn:Hv; [|done].
  cbn [bind]. destruct (apply_parse cells) as [ys|e] eqn:Hc; [|done].
  intros _. constructor; [by exists x | by eapply IH].
Qed.

Lemma apply_coerce_Return (cells xs : list value) :
  apply_coerce to_numeric cells = Return xs ->
  Forall (fun v => is_Some (to_numeric v)) cells.
Proof.
  revert xs; induction cells as [|v cells IH]; intros xs; [constructor|].
  simpl. unfold coerce at 1. destruct (to_numeric v) as [x|] eqn:Hv; [|done].
  cbn [bind]. destruct (apply_coerce to_numeric cells) as [ys|e] eqn:Hc; [|done].
  intros _. constructor; [by exists x | by eapply IH].
Qed.

Lemma clean_chunk_Return (chunk : list event_row) (cleaned : list tx_row) :
  clean_chunk to_numeric chunk = Return cleaned ->
  Forall (readable to_numeric) chunk.
Proof.
  unfold clean_chunk.
  destruct (apply_parse (DAMAGE_PROPERTY <$> chunk)) as [ps|e] eqn:H1; [|done].
  destruct (apply_parse (DAMAGE_CROPS <$> chunk)) as [cs|e] eqn:H2; [|done].
  cbn [bind].
  destruct (apply_coerce to_numeric (INJURIES_DIRECT <$> chunk)) as [c1|e] eqn:H3;
    [|done].
  destruct (apply_coerce to_numeric (INJURIES_INDIRECT <$> chunk)) as [c2|e] eqn:H4;
    [|done].
  destruct (apply_coerce to_numeric (DEATHS_DIRECT <$> chunk)) as [c3|e] eqn:H5;
    [|done].
  destruct (apply_coerce to_numeric (DEATHS_INDIRECT <$> chunk)) as [c4|e] eqn:H6;
    [|done].
  destruct (apply_coerce to_numeric (MAGNITUDE <$> chunk)) as [c5|e] eqn:H7;
    [|done].
  intros _.
  apply apply_parse_Return in H1, H2.
  apply apply_coerce_Return in H3, H4, H5, H6, H7.
  rewrite Forall_fmap in H1, H2, H3, H4, H5, H6, H7.
  rewrite Forall_forall in H1, H2, H3, H4, H5, H6, H7.
  apply Forall_forall. intros r Hr.
  repeat split; [apply H1|apply H2|apply H3|apply H4|apply H5|apply H6|apply H7];
    done.
Qed.

Lemma filter_chunks_Return (batches : list (list event_row))
    (tx_chunks : list (list tx_row)) :
  filter_chunks to_numeric batches = Return tx_chunks ->
  Forall (readable to_numeric)
    (filter (fun r => is_texas r = true) (concat batches)).
Proof.
  revert tx_chunks; induction batches as [|chunk batches IH]; intros tx_chunks;
    simpl; [constructor|].
  rewrite filter_app, Forall_app.
  destruct (filter (fun r => is_texas r = true) chunk) as [|r kept] eqn:Hk.
  - intros Hf. split; [constructor | by eapply IH].
  - destruct (clean_chunk to_numeric (r :: kept)) as [cleaned|e] eqn:Hc; [|done].
    cbn [bind].
    destruct (filter_chunks to_numeric batches) as [rest|e] eqn:Hr; [|done].
    intros _. split; [by eapply clean_chunk_Return | by eapply IH].
Qed.

(** A table that [load_filter_tx_one_file] returns is the normalized
    records of the rows of the region, all of which were readable. *)
Lemma load_filter_tx_one_file_Return (rows : list event_row) (n : positive)
    (table : list tx_row) :
  load_filter_tx_one_file to_numeric rows n = Return table ->
  Forall (readable to_numeric) (filter in_region rows) /\
  table = clean_row to_numeric <$> filter in_region rows.
Proof.
  intros Hload.
  assert (Forall (readable to_numeric) (filter (fun r => is_texas r = true) rows))
    as Hall.
  { unfold load_filter_tx_one_file in Hload.
    destruct (filter_chunks to_numeric (read_csv rows n)) as [tx|e] eqn:Hf; [|done].
    apply filter_chunks_Return in Hf. by rewrite read_csv_concat in Hf. }
  rewrite filter_in_region. split; [done|].
  rewrite (load_filter_tx_one_file_readable rows n Hall) in Hload.
  congruence.
Qed.


End TransformerFacts.

(** ** The dataset *)

Lemma concat_drop_empty {A} (dfs : list (list A)) :
  concat (drop_empty dfs) = concat dfs.
Proof. induction dfs as [|[|x df] dfs IH]; simpl; by rewrite ?IH. Qed.




Section DatasetFacts.

Variable to_numeric : value -> option value.
Variable to_parquet : list dataset_row -> bool.





Lemma load_all_Return (dir : raw_dir) (paths : list str) (all_tx : list (list tx_row)) :
  load_all to_numeric dir paths = Return all_tx ->
  exists dfs, Forall2 (year_result to_numeric dir) paths dfs /\ all_tx = drop_empty dfs.
Proof.
  revert all_tx; induction paths as [|f paths IH]; intros all_tx; cbn [load_all].
  - intros [= <-]. exists []. split; [constructor | done].
  - destruct (load_filter_tx_one_file to_numeric (default [] (dir !! f)) 200000)
      as [df|e] eqn:Hf; [|done].
    cbn [bind]. destruct (load_all to_numeric dir paths) as [rest|e] eqn:Hrest; [|done].
    cbn [bind]. intros [= <-]. destruct (IH rest eq_refl) as (dfs & Hall & ->).
    exists (df :: dfs). split; [by constructor|]. by destruct df.
Qed.





End DatasetFacts.

(** ** Sample data *)



(** The same row with another state does not make the call raise: the
    table is empty. *)
Example load_filter_tx_one_file_no_match :
  load_filter_tx_one_file SAMPLE_NUMERIC ELSEWHERE_ROWS 200000 = Return [].
Proof. vm_compute. reflexivity. Qed.

Example load_filter_tx_one_file_sample :
  (fun t => (BEGIN_YEARMONTH (event t), TOTAL_DAMAGE_USD t))
    <$> (clean_row SAMPLE_NUMERIC <$> filter in_region SAMPLE_ROWS)
  = [(201503, float_lit 2010500); (201112, float_lit 500)].
Proof. vm_compute. reflexivity. Qed.








Example begin_year_month_201503 :
  BEGIN_YEARMONTH (event (tx SAMPLE_DATASET_ROW)) = 201503 /\
  BEGIN_YEAR SAMPLE_DATASET_ROW = 2015 /\ BEGIN_MONTH SAMPLE_DATASET_ROW = 3.
Proof. repeat split; vm_compute; reflexivity. Qed.

Example main_no_rows :
  main SAMPLE_NUMERIC SAMPLE_WRITER
    (list_to_map ((fun year => (sample_name year, OTHER_ROWS)) <$> range 2010 2026))
  = Raise (RuntimeError NO_TEXAS_MSG).
Proof. vm_compute. reflexivity. Qed.

(** * Further properties of the fetcher *)

Section FetcherSteps.

Variable remote : str -> option response.
Variable gzip_decode : list Byte.byte -> list Byte.byte * bool.

Lemma write_chunks_appends (path : str) (cs : list (list Byte.byte))
    (w : world) (data : list Byte.byte) :
  files w !! path = Some data ->
  write_chunks path cs w =
  (Return (), World (<[path := data ++ concat cs]> (files w)) (log w)).
Proof.
  revert w data; induction cs as [|chunk cs IH]; intros [fs lg] data Hd; simpl in *.
  - rewrite app_nil_r, insert_id by done. reflexivity.
  - unfold mbind, io_bind. destruct chunk as [|b chunk].
    + cbn. by rewrite (IH (World fs lg) data Hd).
    + cbn. rewrite Hd. cbn.
      rewrite (IH (World (<[path := data ++ b :: chunk]> fs) lg) (data ++ b :: chunk))
        by (cbn; apply lookup_insert_eq).
      cbn. by rewrite insert_insert_eq, <- app_assoc.
Qed.

(** What [download_file] does when the destination is absent, case by
    case of the answer of the server. *)
Lemma download_file_absent (url out_path : str) (w : world) :
  files w !! out_path = None ->
  download_file remote url out_path w =
  match remote url with
  | None => (Raise HTTPError, World (files w) (log w ++ [Get url]))
  | Some r =>
      if status_ok r then
        (if breaks r then Raise HTTPError else Return (),
         World (<[out_path := concat (chunks r)]> (files w)) (log w ++ [Get url]))
      else (Raise HTTPError, World (files w) (log w ++ [Get url]))
  end.
Proof.
  intros Hno. unfold download_file, mbind, io_bind, exists_.
  rewrite bool_decide_eq_false_2 by (rewrite Hno; by intros [? ?]).
  unfold requests_get, mbind, io_bind, emit, raise, mret, io_ret.
  destruct (remote url) as [r|]; [|done].
  unfold raise_for_status, raise, mret, io_ret.
  destruct (status_ok r); [|done]. unfold open_wb. cbn [files log].
  rewrite (write_chunks_appends out_path (chunks r) _ [])
    by (cbn; apply lookup_insert_eq).
  cbn. rewrite insert_insert_eq. by destruct (breaks r).
Qed.

(** What [gunzip_file] does when the destination is absent. *)
Lemma gunzip_file_absent (gz_path csv_path : str) (w : world) :
  files w !! csv_path = None ->
  gunzip_file gzip_decode gz_path csv_path w =
  match files w !! gz_path with
  | None => (Raise (FileNotFoundError gz_path), w)
  | Some data =>
      if (gzip_decode data).2 then
        (Return (),
         World (<[csv_path := (gzip_decode data).1]> (files w))
           (log w ++ [Decompress gz_path;
                      Print (129513%N :: lit " Unzipped -> " ++ name csv_path)]))
      else
        (Raise BadGzipFile,
         World (<[csv_path := (gzip_decode data).1]> (files w))
           (log w ++ [Decompress gz_path]))
  end.
Proof.
  intros Hno. unfold gunzip_file, mbind, io_bind, exists_.
  rewrite bool_decide_eq_false_2 by (rewrite Hno; by intros [? ?]).
  unfold open_rb. destruct (files w !! gz_path) as [data|]; [|done].
  unfold open_wb, emit, write. cbn [files log].
  destruct (gzip_decode data) as [decoded sound]. cbn [files log fst snd].
  rewrite lookup_insert_eq, insert_insert_eq. cbn.
  destruct sound; cbn; [by rewrite <- app_assoc | done].
Qed.

End FetcherSteps.

Section FetcherOutcomes.

Variable remote : str -> option response.
Variable gzip_decode : list Byte.byte -> list Byte.byte * bool.

(** X1: a download to a destination that is absent, from a server that
    answers with a good status (and a [Content-Length] that is absent or a
    decimal number) and whose stream does not break, returns with the
    destination holding the chunks received, one after the other, and with
    the request as the only thing recorded. *)
Theorem download_file_writes_chunks (url out_path : str) (w : world) (r : response) :
  files w !! out_path = None -> remote url = Some r ->
  status_ok r = true -> breaks r = false ->
  download_file remote url out_path w =
  (Return (),
   World (<[out_path := concat (chunks r)]> (files w)) (log w ++ [Get url])).
Proof.
  intros Hno Hr Hok Hbr. rewrite download_file_absent by done.
  by rewrite Hr, Hok, Hbr.
Qed.

(** X2: when the server cannot be reached or answers with an error
    status, a download to an absent destination raises and creates no
    file. *)
Theorem download_file_refused (url out_path : str) (w : world) :
  files w !! out_path = None ->
  remote url = None \/ (exists r, remote url = Some r /\ status_ok r = false) ->
  download_file remote url out_path w =
  (Raise HTTPError, World (files w) (log w ++ [Get url])).
Proof.
  intros Hno Hr. rewrite download_file_absent by done.
  destruct Hr as [->|(r & -> & ->)]; done.
Qed.

(** X3: when the stream breaks after a good status (and a
    [Content-Length] that is absent or a decimal number), the download
    raises and the chunks received so far stay at the destination; a later
    download to that destination, from any address, then returns without
    a request: the partial file counts as complete. *)
Theorem download_file_partial (url out_path : str) (w : world) (r : response) :
  files w !! out_path = None -> remote url = Some r ->
  status_ok r = true -> breaks r = true ->
  exists w1,
    download_file remote url out_path w = (Raise HTTPError, w1) /\
    files w1 !! out_path = Some (concat (chunks r)) /\
    forall url',
      exists line,
        download_file remote url' out_path w1 =
        (Return (), World (files w1) (log w1 ++ [Print line])).
Proof.
  intros Hno Hr Hok Hbr. rewrite download_file_absent by done.
  rewrite Hr, Hok, Hbr. eexists. split; [done|].
  cbn [files]. split; [apply lookup_insert_eq|].
  intros url'. eexists. apply download_file_existing. cbn [files].
  rewrite lookup_insert_eq. by eexists.
Qed.

(** X4: [gunzip_file] with an absent destination raises
    [FileNotFoundError] and changes nothing when the source is absent;
    with a sound source it returns with the decoded bytes at the
    destination and the source as it was. *)
Theorem gunzip_file_decodes (gz_path csv_path : str) (w : world) :
  files w !! csv_path = None ->
  (files w !! gz_path = None ->
   gunzip_file gzip_decode gz_path csv_path w
   = (Raise (FileNotFoundError gz_path), w)) /\
  (forall data decoded,
     files w !! gz_path = Some data -> gzip_decode data = (decoded, true) ->
     exists w1 line,
       gunzip_file gzip_decode gz_path csv_path w = (Return (), w1) /\
       files w1 = <[csv_path := decoded]> (files w) /\
       files w1 !! gz_path = Some data /\
       log w1 = log w ++ [Decompress gz_path; Print line]).
Proof.
  intros Hno. split.
  - intros Hgz. rewrite gunzip_file_absent by done. by rewrite Hgz.
  - intros data decoded Hgz Hdec. rewrite gunzip_file_absent by done.
    rewrite Hgz, Hdec. cbn [fst snd]. eexists _, _. split; [done|].
    cbn [files log]. split; [done|]. split; [|done].
    rewrite lookup_insert_ne; [done|]. intros <-. congruence.
Qed.

(** X5: when the source has a defect, [gunzip_file] raises and what was
    decoded before the defect stays at the destination; a later call with
    that destination returns without decompressing anything. *)
Theorem gunzip_file_partial (gz_path csv_path : str) (w : world)
    (data decoded : list Byte.byte) :
  files w !! csv_path = None -> files w !! gz_path = Some data ->
  gzip_decode data = (decoded, false) ->
  exists w1,
    gunzip_file gzip_decode gz_path csv_path w = (Raise BadGzipFile, w1) /\
    files w1 !! csv_path = Some decoded /\
    forall gz_path',
      exists line,
        gunzip_file gzip_decode gz_path' csv_path w1 =
        (Return (), World (files w1) (log w1 ++ [Print line])).
Proof.
  intros Hno Hgz Hdec. rewrite gunzip_file_absent by done.
  rewrite Hgz, Hdec. cbn [fst snd]. eexists. split; [done|].
  cbn [files]. split; [apply lookup_insert_eq|].
  intros gz'. eexists. apply gunzip_file_existing. cbn [files].
  rewrite lookup_insert_eq. by eexists.
Qed.

(** Whatever it returns or raises, [download_file] leaves every path but
    its destination as it was, and its destination in place if it was. *)
Lemma download_file_frame (url out_path : str) (w : world) :
  (forall p, p <> out_path ->
     files (download_file remote url out_path w).2 !! p = files w !! p) /\
  (forall p, is_Some (files w !! p) ->
     is_Some (files (download_file remote url out_path w).2 !! p)).
Proof.
  destruct (files w !! out_path) as [data|] eqn:Hd.
  - rewrite download_file_existing by (by eexists). by split.
  - rewrite download_file_absent by done.
    destruct (remote url) as [r|]; [|by split].
    destruct (status_ok r); [|by split]. cbn [snd files]. split.
    + intros p Hp. by rewrite lookup_insert_ne.
    + intros p Hp. destruct (decide (p = out_path)) as [->|Hne];
        [rewrite lookup_insert_eq; by eexists | by rewrite lookup_insert_ne].
Qed.

Lemma gunzip_file_frame (gz_path csv_path : str) (w : world) :
  (forall p, p <> csv_path ->
     files (gunzip_file gzip_decode gz_path csv_path w).2 !! p = files w !! p) /\
  (forall p, is_Some (files w !! p) ->
     is_Some (files (gunzip_file gzip_decode gz_path csv_path w).2 !! p)).
Proof.
  destruct (files w !! csv_path) as [data|] eqn:Hd.
  - rewrite gunzip_file_existing by (by eexists). by split.
  - rewrite gunzip_file_absent by done.
    destruct (files w !! gz_path) as [gz|]; [|by split].
    assert (forall lg, 
      (forall p, p <> csv_path ->
         files (World (<[csv_path := (gzip_decode gz).1]> (files w)) lg) !! p
         = files w !! p) /\
      (forall p, is_Some (files w !! p) ->
         is_Some (files (World (<[csv_path := (gzip_decode gz).1]> (files w)) lg) !! p)))
      as H.
    { intros lg. cbn [files]. split.
      - intros p Hp. by rewrite lookup_insert_ne.
      - intros p Hp. destruct (decide (p = csv_path)) as [->|Hne];
          [rewrite lookup_insert_eq; by eexists | by rewrite lookup_insert_ne]. }
    destruct (gzip_decode gz).2; cbn [snd]; apply H.
Qed.

(** X6: whatever they return or raise, [download_file] and [gunzip_file]
    change no file but their destination, and remove none. *)
Theorem fetch_steps_touch_destination_only
    (url out_path gz_path csv_path : str) (w : world) :
  (forall p, p <> out_path ->
     files (download_file remote url out_path w).2 !! p = files w !! p) /\
  (forall p, p <> csv_path ->
     files (gunzip_file gzip_decode gz_path csv_path w).2 !! p = files w !! p) /\
  (forall p, is_Some (files w !! p) ->
     is_Some (files (download_file remote url out_path w).2 !! p) /\
     is_Some (files (gunzip_file gzip_decode gz_path csv_path w).2 !! p)).
Proof.
  destruct (download_file_frame url out_path w) as [Hd1 Hd2].
  destruct (gunzip_file_frame gz_path csv_path w) as [Hg1 Hg2].
  repeat split; auto.
Qed.

End FetcherOutcomes.

Lemma download_file_writes_chunks_witness :
  download_file SERVER_OK GZ_URL GZ_PATH NO_FILES =
  (Return (),
   World (<[GZ_PATH := concat (chunks (Response true SAMPLE_CHUNKS false))]>
            (files NO_FILES))
     (log NO_FILES ++ [Get GZ_URL])).
Proof.
  apply (download_file_writes_chunks SERVER_OK GZ_URL GZ_PATH NO_FILES
           (Response true SAMPLE_CHUNKS false));
    vm_compute; reflexivity.
Defined.

Lemma download_file_refused_witness :
  download_file SERVER_ERROR GZ_URL GZ_PATH NO_FILES =
  (Raise HTTPError, World (files NO_FILES) (log NO_FILES ++ [Get GZ_URL])).
Proof.
  apply (download_file_refused SERVER_ERROR GZ_URL GZ_PATH NO_FILES).
  - vm_compute. reflexivity.
  - right. exists (Response false [] false). split; vm_compute; reflexivity.
Defined.

Lemma download_file_partial_witness :
  exists w1,
    download_file SERVER_BREAKS GZ_URL GZ_PATH NO_FILES = (Raise HTTPError, w1) /\
    files w1 !! GZ_PATH = Some (concat (chunks (Response true SAMPLE_CHUNKS true))) /\
    forall url',
      exists line,
        download_file SERVER_BREAKS url' GZ_PATH w1 =
        (Return (), World (files w1) (log w1 ++ [Print line])).
Proof.
  apply (download_file_partial SERVER_BREAKS GZ_URL GZ_PATH NO_FILES
           (Response true SAMPLE_CHUNKS true));
    vm_compute; reflexivity.
Defined.

Lemma gunzip_file_decodes_witness :
  exists w1 line,
    gunzip_file DECODE_SOUND GZ_PATH CSV_PATH ONE_GZ = (Return (), w1) /\
    files w1 = <[CSV_PATH := [Byte.x1f; Byte.x8b; Byte.x1f; Byte.x8b]]> (files ONE_GZ) /\
    files w1 !! GZ_PATH = Some [Byte.x1f; Byte.x8b] /\
    log w1 = log ONE_GZ ++ [Decompress GZ_PATH; Print line].
Proof.
  apply (proj2 (gunzip_file_decodes DECODE_SOUND GZ_PATH CSV_PATH ONE_GZ
                  ltac:(vm_compute; reflexivity))
           [Byte.x1f; Byte.x8b] [Byte.x1f; Byte.x8b; Byte.x1f; Byte.x8b]);
    vm_compute; reflexivity.
Defined.

Lemma gunzip_file_partial_witness :
  exists w1,
    gunzip_file DECODE_DEFECT GZ_PATH CSV_PATH ONE_GZ = (Raise BadGzipFile, w1) /\
    files w1 !! CSV_PATH = Some [Byte.x1f] /\
    forall gz_path',
      exists line,
        gunzip_file DECODE_DEFECT gz_path' CSV_PATH w1 =
        (Return (), World (files w1) (log w1 ++ [Print line])).
Proof.
  apply (gunzip_file_partial DECODE_DEFECT GZ_PATH CSV_PATH ONE_GZ
           [Byte.x1f; Byte.x8b] [Byte.x1f]);
    vm_compute; reflexivity.
Defined.

Lemma keeps_files_bind {A B} (m : io A) (k : A -> io B) :
  keeps_files m -> (forall a, keeps_files (k a)) -> keeps_files (m ≫= k).
Proof.
  intros Hm Hk w p Hp. unfold mbind, io_bind.
  specialize (Hm w p Hp). destruct (m w) as [[a|e] w']; simpl in *; [|done].
  by apply Hk.
Qed.

Lemma keeps_files_emit (e : DownloadNoaa.event) : keeps_files (emit e).
Proof. by intros w p Hp. Qed.

Lemma keeps_files_ret {A} (a : A) : keeps_files (mret a : io A).
Proof. by intros w p Hp. Qed.

Lemma keeps_files_raise {A} (e : exn) : keeps_files (raise e : io A).
Proof. by intros w p Hp. Qed.

Section FetcherRuns.

Variable remote : str -> option response.
Variable gzip_decode : list Byte.byte -> list Byte.byte * bool.
Variable text_of : list (list Byte.byte) -> str.

Lemma keeps_files_fetch_year (latest_map : gmap Z str) (year : Z) :
  keeps_files (fetch_year remote gzip_decode latest_map year).
Proof.
  unfold fetch_year. destruct (latest_map !! year) as [gz_name|];
    [|apply keeps_files_ret].
  apply keeps_files_bind; [apply keeps_files_emit|]. intros _.
  apply keeps_files_bind.
  - intros w p Hp. by apply download_file_frame.
  - intros _ w p Hp. by apply gunzip_file_frame.
Qed.

Lemma keeps_files_for_each (latest_map : gmap Z str) (years : list Z) :
  keeps_files (for_each (fetch_year remote gzip_decode latest_map) years).
Proof.
  induction years as [|y years IH]; simpl; [apply keeps_files_ret|].
  apply keeps_files_bind; [apply keeps_files_fetch_year | by intros _].
Qed.

(** A step of the loop that returns leaves both files of its year. *)
Lemma fetch_year_creates (latest_map : gmap Z str) (year : Z) (gz_name : str)
    (w w' : world) :
  latest_map !! year = Some gz_name ->
  fetch_year remote gzip_decode latest_map year w = (Return (), w') ->
  is_Some (files w' !! gz_path_of gz_name) /\
  is_Some (files w' !! csv_path_of gz_name).
Proof.
  intros Hm. unfold fetch_year.
  destruct (latest_map !! year) as [n|] eqn:Hn; [|done].
  assert (n = gz_name) as -> by congruence.
  unfold mbind, io_bind, emit.
  destruct (download_file remote (BASE_URL ++ gz_name) (path_div RAW_DIR gz_name) _)
    as [[[]|e] w1] eqn:Hd; [|done].
  apply download_file_creates in Hd. intros Hg. split.
  - pose proof (proj2 (gunzip_file_frame gzip_decode (path_div RAW_DIR gz_name)
                         (path_div RAW_DIR (replace (lit ".gz") [] gz_name)) w1)
                  _ Hd) as Hk.
    by rewrite Hg in Hk.
  - by apply gunzip_file_creates in Hg.
Qed.

(** A step of the loop that finds both files of its year prints and
    changes no file. *)
Lemma fetch_year_skips (latest_map : gmap Z str) (year : Z) (w : world) :
  (forall gz_name, latest_map !! year = Some gz_name ->
     is_Some (files w !! gz_path_of gz_name) /\
     is_Some (files w !! csv_path_of gz_name)) ->
  exists events,
    fetch_year remote gzip_decode latest_map year w
    = (Return (), World (files w) (log w ++ events)) /\
    Forall is_print events.
Proof.
  intros Hex. unfold fetch_year. destruct (latest_map !! year) as [gz_name|].
  - destruct (Hex gz_name eq_refl) as [Hgz Hcsv].
    unfold mbind, io_bind, emit.
    rewrite download_file_existing by done. cbn [files log].
    rewrite gunzip_file_existing by done. cbn [files log].
    eexists. rewrite <- !app_assoc. split; [done|].
    repeat constructor.
  - exists []. destruct w. split; [|constructor]. cbn. by rewrite app_nil_r.
Qed.

Lemma for_each_creates (latest_map : gmap Z str) (years : list Z) (w w' : world) :
  for_each (fetch_year remote gzip_decode latest_map) years w = (Return (), w') ->
  forall year gz_name,
    year ∈ years -> latest_map !! year = Some gz_name ->
    is_Some (files w' !! gz_path_of gz_name) /\
    is_Some (files w' !! csv_path_of gz_name).
Proof.
  revert w; induction years as [|y years IH]; intros w Hrun year gz_name Hin Hm.
  { by apply elem_of_nil in Hin. }
  simpl in Hrun. unfold mbind, io_bind in Hrun.
  destruct (fetch_year remote gzip_decode latest_map y w) as [[[]|e] w1] eqn:Hy;
    [|done].
  apply elem_of_cons in Hin as [->|Hin]; [|by eapply IH].
  destruct (fetch_year_creates _ _ _ _ _ Hm Hy) as [Hgz Hcsv].
  pose proof (keeps_files_for_each latest_map years w1) as Hk.
  split; [specialize (Hk _ Hgz) | specialize (Hk _ Hcsv)]; by rewrite Hrun in Hk.
Qed.

Lemma for_each_skips (latest_map : gmap Z str) (years : list Z) (w : world) :
  (forall year gz_name,
     year ∈ years -> latest_map !! year = Some gz_name ->
     is_Some (files w !! gz_path_of gz_name) /\
     is_Some (files w !! csv_path_of gz_name)) ->
  exists events,
    for_each (fetch_year remote gzip_decode latest_map) years w
    = (Return (), World (files w) (log w ++ events)) /\
    Forall is_print events.
Proof.
  revert w; induction years as [|y years IH]; intros w Hex.
  { exists []. destruct w. split; [|constructor]. cbn. by rewrite app_nil_r. }
  destruct (fetch_year_skips latest_map y w) as (ev1 & Hy & Hp1).
  { intros gz_name Hm. apply (Hex y gz_name); [by left | done]. }
  destruct (IH (World (files w) (log w ++ ev1))) as (ev2 & Hys & Hp2).
  { intros year gz_name Hin Hm. cbn [files]. apply (Hex year gz_name); [by right | done]. }
  exists (ev1 ++ ev2). simpl. unfold mbind, io_bind. rewrite Hy, Hys.
  cbn [files log]. rewrite <- app_assoc. split; [done | by apply Forall_app].
Qed.

End FetcherRuns.

Lemma io_bind_eq {A B} (m : io A) (k : A -> io B) (w : world) :
  (m ≫= k) w =
  match m w with
  | (Return a, w') => k a w'
  | (Raise e, w') => (Raise e, w')
  end.
Proof. reflexivity. Qed.

Section FetcherMain.

Variable remote : str -> option response.
Variable gzip_decode : list Byte.byte -> list Byte.byte * bool.
Variable text_of : list (list Byte.byte) -> str.

Lemma fetch_directory_listing_listing (w : world) :
  fetch_directory_listing remote text_of w
  = ((listing remote text_of), World (files w) (log w ++ [Get BASE_URL])).
Proof.
  unfold fetch_directory_listing, listing, requests_get, raise_for_status.
  unfold mbind, io_bind, emit, raise, mret, io_ret.
  destruct (remote BASE_URL) as [r|]; [|done].
  destruct (breaks r); [done|]. by destruct (status_ok r).
Qed.

(** X7: when the listing cannot be fetched, or holds no file name of the
    naming convention, [main] raises, changes no file and requests nothing
    but the listing. *)
Theorem main_stops_without_listing (start_year end_year : Z) (w : world) :
  (forall e, (listing remote text_of) = Raise e ->
     DownloadNoaa.main remote gzip_decode text_of start_year end_year w
     = (Raise e, World (files w) (log w ++ [Get BASE_URL]))) /\
  (forall html, (listing remote text_of) = Return html ->
     (~ exists y c f, filename_in html y c f) ->
     DownloadNoaa.main remote gzip_decode text_of start_year end_year w
     = (Raise (RuntimeError NO_FILES_MSG),
        World (files w) (log w ++ [Get BASE_URL]))).
Proof.
  split.
  - intros e He. unfold DownloadNoaa.main.
    by rewrite io_bind_eq, fetch_directory_listing_listing, He.
  - intros html Hl Hno. unfold DownloadNoaa.main.
    rewrite io_bind_eq, fetch_directory_listing_listing, Hl.
    apply scan_matches_nil in Hno. rewrite io_bind_eq.
    unfold build_latest_file_map. by rewrite Hno.
Qed.

(** X8: after a run of [main] that returned, a second run over the same
    years, with the same server, returns, changes no file, and records the
    request of the listing and printed lines only: nothing is downloaded
    or decompressed again. *)
Theorem main_second_run (start_year end_year : Z) (w w1 : world) :
  DownloadNoaa.main remote gzip_decode text_of start_year end_year w
  = (Return (), w1) ->
  exists events,
    DownloadNoaa.main remote gzip_decode text_of start_year end_year w1
    = (Return (), World (files w1) (log w1 ++ Get BASE_URL :: events)) /\
    Forall is_print events.
Proof.
  unfold DownloadNoaa.main.
  rewrite !io_bind_eq, !fetch_directory_listing_listing.
  destruct (listing remote text_of) as [html|e]; [|done].
  rewrite !io_bind_eq.
  destruct (build_latest_file_map html) as [latest_map|e]; [|done].
  cbn [lift mret io_ret].
  set (years := range start_year (end_year + 1)).
  set (missing := filter (fun y => latest_map !! y = None) years).
  assert (exists warning,
    Forall is_print warning /\
    forall w0 : world,
      (match missing with
       | [] => mret ()
       | _ => emit (Print (9888%N :: 65039%N
                     :: lit " No matching details files found for years: "
                     ++ repr_ints missing))
       end : io unit) w0
      = (Return (), World (files w0) (log w0 ++ warning)))
    as (warning & Hwarn & Hprint).
  { destruct missing as [|y0 rest].
    - exists []. split; [constructor|]. intros [fs lg]. cbn. by rewrite app_nil_r.
    - exists [Print (9888%N :: 65039%N
                :: lit " No matching details files found for years: "
                ++ repr_ints (y0 :: rest))].
      split; [by repeat constructor|]. by intros [fs lg]. }
  rewrite !io_bind_eq, !Hprint. cbn [files log].
  intros Hrun.
  destruct (for_each_skips remote gzip_decode latest_map years
              (World (files w1) ((log w1 ++ [Get BASE_URL]) ++ warning)))
    as (events & Hskip & Hevents).
  { intros year gz_name Hin Hm. cbn [files].
    by apply (for_each_creates remote gzip_decode latest_map years _ _ Hrun year). }
  rewrite Hskip. cbn [files log]. exists (warning ++ events).
  split; [|by apply Forall_app].
  by rewrite <- !app_assoc.
Qed.

End FetcherMain.

Lemma main_stops_without_listing_witness :
  DownloadNoaa.main SERVER_ERROR DECODE_SOUND SAMPLE_TEXT 2010 2025 NO_FILES
  = (Raise HTTPError, World (files NO_FILES) (log NO_FILES ++ [Get BASE_URL])).
Proof.
  apply (proj1 (main_stops_without_listing SERVER_ERROR DECODE_SOUND SAMPLE_TEXT
                  2010 2025 NO_FILES)).
  vm_compute. reflexivity.
Defined.

Lemma main_second_run_witness :
  exists events,
    SAMPLE_RUN AFTER_SAMPLE_RUN
    = (Return (),
       World (files AFTER_SAMPLE_RUN) (log AFTER_SAMPLE_RUN ++ Get BASE_URL :: events)) /\
    Forall is_print events.
Proof.
  apply (main_second_run SERVER_OK DECODE_SOUND SAMPLE_TEXT 2020 2020 NO_FILES
           AFTER_SAMPLE_RUN).
  vm_compute. reflexivity.
Defined.

(** The first sample run fetches the listing and the later revision of
    2020, and decompresses it. *)
Example sample_run_log :
  List.filter (fun e => match e with Print _ => false | _ => true end)
    (log AFTER_SAMPLE_RUN) =
  [Get BASE_URL; Get (BASE_URL ++ NAME_2020_B);
   Decompress (lit "data/raw/" ++ NAME_2020_B)] /\
  is_Some (files AFTER_SAMPLE_RUN
           !! (lit "data/raw/StormEvents_details-ftp_v1.0_d2020_c20220601.csv")).
Proof. split; [vm_compute; reflexivity | vm_compute; by eexists]. Qed.

Section FetcherMainFiles.

Variable remote : str -> option response.
Variable gzip_decode : list Byte.byte -> list Byte.byte * bool.
Variable text_of : list (list Byte.byte) -> str.

(** The line about the years without a file changes no file. *)
Lemma missing_years_warning (missing : list Z) (w : world) :
  exists warning,
    (match missing with
     | [] => mret ()
     | _ => emit (Print (9888%N :: 65039%N
                   :: lit " No matching details files found for years: "
                   ++ repr_ints missing))
     end : io unit) w
    = (Return (), World (files w) (log w ++ warning)).
Proof.
  destruct missing as [|y0 rest].
  - exists []. destruct w as [fs lg]. cbn. by rewrite app_nil_r.
  - by eexists [_].
Qed.

(** X9: a run of [main] that returns had a listing with at least one file
    name, removed no file, and leaves, for every year of its range that
    the listing names, the compressed and the decompressed file of the
    name that [build_latest_file_map] chose for the year. *)
Theorem main_leaves_files (start_year end_year : Z) (w w1 : world) :
  DownloadNoaa.main remote gzip_decode text_of start_year end_year w
  = (Return (), w1) ->
  exists html latest_map,
    listing remote text_of = Return html /\
    build_latest_file_map html = Return latest_map /\
    (forall p, is_Some (files w !! p) -> is_Some (files w1 !! p)) /\
    forall year gz_name,
      start_year <= year <= end_year -> latest_map !! year = Some gz_name ->
      is_Some (files w1 !! gz_path_of gz_name) /\
      is_Some (files w1 !! csv_path_of gz_name).
Proof.
  unfold DownloadNoaa.main.
  rewrite !io_bind_eq, !fetch_directory_listing_listing.
  destruct (listing remote text_of) as [html|e]; [|done].
  rewrite !io_bind_eq.
  destruct (build_latest_file_map html) as [latest_map|e] eqn:Hmap; [|done].
  cbn [lift mret io_ret]. rewrite !io_bind_eq.
  set (years := range start_year (end_year + 1)).
  destruct (missing_years_warning (filter (fun y => latest_map !! y = None) years)
              (World (files w) (log w ++ [Get BASE_URL]))) as (warning & ->).
  cbn [files log]. intros Hrun.
  exists html, latest_map. split; [done|]. split; [done|]. split.
  - intros p Hp.
    pose proof (keeps_files_for_each remote gzip_decode latest_map years
                  (World (files w) ((log w ++ [Get BASE_URL]) ++ warning)) p Hp) as Hk.
    by rewrite Hrun in Hk.
  - intros year gz_name Hy Hm.
    apply (for_each_creates remote gzip_decode latest_map years _ _ Hrun year);
      [|done].
    apply elem_of_range. lia.
Qed.

End FetcherMainFiles.

Lemma main_leaves_files_witness :
  exists html latest_map,
    listing SERVER_OK SAMPLE_TEXT = Return html /\
    build_latest_file_map html = Return latest_map /\
    (forall p, is_Some (files NO_FILES !! p) -> is_Some (files AFTER_SAMPLE_RUN !! p)) /\
    forall year gz_name,
      2020 <= year <= 2020 -> latest_map !! year = Some gz_name ->
      is_Some (files AFTER_SAMPLE_RUN !! gz_path_of gz_name) /\
      is_Some (files AFTER_SAMPLE_RUN !! csv_path_of gz_name).
Proof.
  apply (main_leaves_files SERVER_OK DECODE_SOUND SAMPLE_TEXT 2020 2020 NO_FILES
           AFTER_SAMPLE_RUN).
  vm_compute. reflexivity.
Defined.

(** * Further properties of the transformer *)

(** X10: [_DAMAGE_RE] matches exactly the texts made of spaces, a decimal
    number, spaces, at most one code point of the class [[KMB]], and
    spaces; group 1 is the number and group 2 the code point. *)
Theorem damage_pattern_language (s group1 : str) (group2 : option N) :
  _DAMAGE_RE s = Some (group1, group2) <->
  exists ws1 ws2 ws3,
    s = ws1 ++ group1 ++ ws2 ++ option_list group2 ++ ws3 /\
    spaces ws1 /\ spaces ws2 /\ spaces ws3 /\ decimal_number group1 /\
    (forall c, group2 = Some c -> is_kmb c = true).
Proof.
  split; [apply _DAMAGE_RE_Some|].
  intros (ws1 & ws2 & ws3 & -> & H1 & H2 & H3 & Hn & Hk).
  by apply _DAMAGE_RE_app.
Qed.

Lemma strip_ends (s : str) :
  starts_outside is_space (strip s) /\
  starts_outside is_space (reverse (strip s)).
Proof.
  unfold strip. destruct (lstrip_spec s) as (ws1 & _ & _ & Hstart).
  destruct (rstrip_spec (lstrip s)) as (ws2 & Hl & _ & Hend).
  split; [|done]. destruct (rstrip (lstrip s)) as [|c t]; [done|].
  rewrite Hl in Hstart. exact Hstart.
Qed.

(** Spaces around a text do not change its stripped form. *)
Lemma strip_padded (ws1 s ws2 : str) :
  spaces ws1 -> spaces ws2 -> strip (ws1 ++ s ++ ws2) = strip s.
Proof.
  intros H1 H2. destruct (strip_spec s) as (a & b & Hs & Ha & Hb).
  destruct (strip_ends s) as [Hstart Hend].
  rewrite Hs at 1.
  replace (ws1 ++ (a ++ strip s ++ b) ++ ws2)
    with ((ws1 ++ a) ++ strip s ++ (b ++ ws2)) by (by rewrite <- !app_assoc).
  apply strip_app; auto; by apply Forall_app.
Qed.

(** X11: spaces before and after a text do not change the amount read
    from it. *)
Theorem parse_damage_to_dollars_padded (ws1 s ws2 : str) :
  spaces ws1 -> spaces ws2 ->
  parse_damage_to_dollars (VStr (ws1 ++ s ++ ws2))
  = parse_damage_to_dollars (VStr s).
Proof.
  intros H1 H2. simpl. f_equal. unfold parse_damage_text.
  by rewrite strip_padded.
Qed.

Lemma parse_damage_to_dollars_padded_witness :
  parse_damage_to_dollars (VStr (lit " " ++ lit "2.5M" ++ [9; 10]%N))
  = parse_damage_to_dollars (VStr (lit "2.5M")).
Proof.
  apply (parse_damage_to_dollars_padded (lit " ") (lit "2.5M") [9; 10]%N);
    repeat constructor.
Defined.

Lemma shr_1_nonneg (mrs : shr_record) : 0 <= shr_m mrs -> 0 <= shr_m (shr_1 mrs).
Proof. destruct mrs as [[|[p|p|]|[p|p|]] r s]; simpl; lia. Qed.

Lemma iter_pos_shr_1_nonneg (p : positive) (mrs : shr_record) :
  0 <= shr_m mrs -> 0 <= shr_m (SpecFloat.iter_pos shr_1 p mrs).
Proof.
  revert mrs; induction p as [p IH|p IH|]; intros mrs H; simpl.
  - by apply IH, IH, shr_1_nonneg.
  - by apply IH, IH.
  - by apply shr_1_nonneg.
Qed.

Lemma shr_fexp_nonneg (m e : Z) (l : location) :
  0 <= m -> 0 <= shr_m (shr_fexp PREC EMAX m e l).1.
Proof.
  intros Hm. unfold shr_fexp, shr.
  assert (0 <= shr_m (shr_record_of_loc m l)) by (by destruct l as [|[]]).
  destruct (fexp PREC EMAX (Zdigits2 m + e) - e); simpl; [done| |done].
  by apply iter_pos_shr_1_nonneg.
Qed.

Lemma round_nearest_even_nonneg (m : Z) (l : location) :
  0 <= m -> 0 <= round_nearest_even m l.
Proof. intros Hm. destruct l as [|[]]; simpl; try destruct (Z.even m); lia. Qed.

(** Rounding a mantissa that is not negative gives a number with the sign
    asked for: a zero, a finite float or an infinity, never NaN. *)
Lemma binary_round_aux_signed (s : bool) (m e : Z) (l : location) :
  0 <= m -> signed s (binary_round_aux PREC EMAX s m e l).
Proof.
  intros Hm. unfold binary_round_aux.
  pose proof (shr_fexp_nonneg m e l Hm) as H1.
  destruct (shr_fexp PREC EMAX m e l) as [mrs' e']. simpl in H1.
  pose proof (shr_fexp_nonneg
                (round_nearest_even (shr_m mrs') (loc_of_shr_record mrs')) e'
                loc_Exact (round_nearest_even_nonneg _ _ H1)) as H2.
  destruct (shr_fexp PREC EMAX _ e' loc_Exact) as [mrs'' e'']. simpl in H2.
  destruct (shr_m mrs'') as [|p|p]; simpl; [done| |lia].
  by destruct (e'' <=? EMAX - PREC).
Qed.

Lemma float_of_ratio_signed (m : Z) (k : nat) : signed false (float_of_ratio m k).
Proof.
  unfold float_of_ratio. destruct m as [|p|p]; try done.
  unfold SFdiv_core_binary.
  set (e' := Z.min _ _). set (s := 0 - 0 - e').
  set (m' := match s with Zpos _ => Z.shiftl (Zpos p) s | Z0 => Zpos p | Zneg _ => 0 end).
  assert (0 <= m') as Hm'.
  { unfold m'. destruct s; [lia| |lia]. by apply Z.shiftl_nonneg. }
  destruct (Z.div_eucl m' (10 ^ Z.of_nat k)) as [q r] eqn:Hq.
  apply binary_round_aux_signed.
  assert (q = m' / 10 ^ Z.of_nat k) as -> by (unfold Z.div; by rewrite Hq).
  apply Z.div_pos; [done|]. apply Z.pow_pos_nonneg; lia.
Qed.

Lemma fmul_signed (x : float) (m : positive) (e : Z) :
  signed false x -> signed false (fmul x (S754_finite false m e)).
Proof.
  destruct x as [b|b| |b mx ex]; simpl; try done.
  - by intros ->.
  - by intros ->.
  - intros ->. by apply binary_round_aux_signed.
Qed.

Lemma group2_mult_finite (group2 : option N) :
  exists m e, group2_mult group2 = S754_finite false m e.
Proof. unfold group2_mult. repeat case_bool_decide; vm_compute; eauto. Qed.

Lemma parse_damage_text_signed (s : str) : signed false (parse_damage_text s).
Proof.
  unfold parse_damage_text.
  destruct (bool_decide (strip s = []) || bool_decide (upper (strip s) = lit "NA")
            || bool_decide (upper (strip s) = lit "N/A")); [done|].
  destruct (_DAMAGE_RE (strip s)) as [[group1 group2]|]; [|done].
  change (signed false (fmul (float_of_decimal group1) (group2_mult group2))).
  destruct (group2_mult_finite group2) as (m & e & ->).
  apply fmul_signed. unfold float_of_decimal.
  destruct (span is_ascii_digit group1) as [whole rest].
  apply float_of_ratio_signed.
Qed.

Lemma float_of_int_signed (n : Z) (x : float) :
  float_of_int n = Return x -> is_nan x = false.
Proof.
  unfold float_of_int, binary_normalize, binary_round.
  destruct n as [|p|p].
  - by intros [= <-].
  - destruct (shl_align p 0 _) as [mz ez].
    pose proof (binary_round_aux_signed false (Zpos mz) ez loc_Exact ltac:(lia)) as H.
    destruct (binary_round_aux PREC EMAX false (Zpos mz) ez loc_Exact);
      try done; by intros [= <-].
  - destruct (shl_align p 0 _) as [mz ez].
    pose proof (binary_round_aux_signed true (Zpos mz) ez loc_Exact ltac:(lia)) as H.
    destruct (binary_round_aux PREC EMAX true (Zpos mz) ez loc_Exact);
      try done; by intros [= <-].
Qed.

(** X12: an amount that [parse_damage_to_dollars] returns is never NaN,
    and the amount read from a text is never negative: it is zero, a
    positive float or the positive infinity. *)
Theorem parse_damage_to_dollars_is_number :
  (forall v x, parse_damage_to_dollars v = Return x -> is_nan x = false) /\
  (forall s, exists x,
     parse_damage_to_dollars (VStr s) = Return x /\ signed false x).
Proof.
  split.
  - intros v x. destruct v as [| [|] |n|f|s|text]; simpl.
    + by intros [= <-].
    + apply float_of_int_signed.
    + apply float_of_int_signed.
    + apply float_of_int_signed.
    + destruct (is_nan f) eqn:Hf; intros [= <-]; [|done].
      pose proof (parse_damage_text_signed (lit "nan")) as H.
      by destruct (parse_damage_text (lit "nan")).
    + intros [= <-]. pose proof (parse_damage_text_signed s) as H.
      by destruct (parse_damage_text s).
    + intros [= <-]. pose proof (parse_damage_text_signed text) as H.
      by destruct (parse_damage_text text).
  - intros s. eexists. split; [done|]. apply parse_damage_text_signed.
Qed.

Section TransformerOutcomes.

Variable to_numeric : value -> option value.

(** X14: every row of a table that [load_filter_tx_one_file] returns is of
    the region, carries the two amounts read from its own damage cells and
    their sum as its total, and has none of its five numeric columns
    missing. *)
Theorem load_filter_tx_one_file_rows (rows : list event_row) (n : positive)
    (table : list tx_row) (t : tx_row) :
  load_filter_tx_one_file to_numeric rows n = Return table -> t ∈ table ->
  in_region (event t) /\
  parse_damage_to_dollars (DAMAGE_PROPERTY (event t))
  = Return (DAMAGE_PROPERTY_USD t) /\
  parse_damage_to_dollars (DAMAGE_CROPS (event t)) = Return (DAMAGE_CROPS_USD t) /\
  TOTAL_DAMAGE_USD t = fadd (DAMAGE_PROPERTY_USD t) (DAMAGE_CROPS_USD t) /\
  isna (MAGNITUDE (event t)) = false /\
  isna (INJURIES_DIRECT (event t)) = false /\
  isna (INJURIES_INDIRECT (event t)) = false /\
  isna (DEATHS_DIRECT (event t)) = false /\
  isna (DEATHS_INDIRECT (event t)) = false.
Proof.
  intros [Hall ->]%load_filter_tx_one_file_Return
         (r & -> & [Hreg Hr]%list_elem_of_filter)%list_elem_of_fmap.
  rewrite Forall_forall in Hall.
  destruct (Hall r) as [[[p Hp] [c Hc]] _]; [by apply list_elem_of_filter|].
  assert (forall v, isna (numeric to_numeric v) = false) as Hna.
  { intros v. unfold numeric, fillna0.
    destruct (to_numeric v) as [x|]; [|done].
    by destruct (isna x) eqn:Hx. }
  simpl. unfold usd. rewrite Hp, Hc. repeat split; auto.
Qed.

End TransformerOutcomes.

Lemma drop_empty_head {A} (dfs : list (list A)) (df : list A) (rest : list (list A)) :
  drop_empty dfs = df :: rest -> df <> [].
Proof.
  induction dfs as [|[|x d] dfs IH]; simpl; [done|done|]. by intros [= <- _].
Qed.

Section DatasetOutcomes.

Variable to_numeric : value -> option value.
Variable to_parquet : list dataset_row -> bool.

Lemma year_results_concat (dir : raw_dir) (paths : list str)
    (dfs : list (list tx_row)) :
  Forall2 (year_result to_numeric dir) paths dfs ->
  concat dfs
  = clean_row to_numeric <$> filter in_region (concat (rows_at dir <$> paths)).
Proof.
  induction 1 as [|path df paths dfs Hp _ IH]; [done|].
  apply load_filter_tx_one_file_Return in Hp as [_ ->].
  simpl. by rewrite IH, filter_app, fmap_app.
Qed.

(** X15: when a year between 2010 and 2025 has no file in the raw
    directory, [main] raises [FileNotFoundError] for the first such year,
    whatever the files of the other years hold. *)
Theorem main_missing_year (dir : raw_dir) (y : Z) :
  2010 <= y <= 2025 -> ~ has_year_file dir y ->
  (forall y', 2010 <= y' < y -> has_year_file dir y') ->
  main to_numeric to_parquet dir = Raise (FileNotFoundError (NO_CSV_MSG y)).
Proof.
  intros Hy Hno Hbefore. unfold main, iter_year_files.
  rewrite (range_split 2010 (2025 + 1) y) by lia.
  destruct (iter_years_first_missing dir (range 2010 y) (range (y + 1) (2025 + 1)) y)
    as (paths & -> & _); [|done|done].
  apply Forall_forall. intros y' Hy'%elem_of_range. by apply Hbefore.
Qed.

(** X16: a dataset that [main] writes is never empty, and it is the
    normalized records, with the two derived columns, of all the rows of
    the region of the files that [iter_year_files] yields, year after year
    and in the order of each file. *)
Theorem main_dataset (dir : raw_dir) (dataset : list dataset_row) :
  main to_numeric to_parquet dir = Return dataset ->
  dataset <> [] /\
  exists paths,
    iter_year_files dir 2010 2025 = (paths, None) /\
    dataset
    = derive <$> (clean_row to_numeric
                    <$> filter in_region (concat (rows_at dir <$> paths))).
Proof.
  unfold main.
  destruct (iter_year_files dir 2010 2025) as [paths [e|]]; [done|].
  cbn [list_of bind].
  destruct (load_all to_numeric dir paths) as [all_tx|e] eqn:Hall; [|done].
  cbn [bind]. apply load_all_Return in Hall as (dfs & Hdfs & ->).
  destruct (drop_empty dfs) as [|df rest] eqn:Hd; [done|].
  cbv zeta. destruct (to_parquet (derive <$> concat (df :: rest))); [|done].
  intros Hret.
  assert (dataset = derive <$> concat (df :: rest)) as -> by congruence.
  split.
  - apply drop_empty_head in Hd. by destruct df.
  - exists paths. split; [done|].
    by rewrite <- Hd, concat_drop_empty, (year_results_concat dir paths dfs Hdfs).
Qed.

End DatasetOutcomes.

Lemma load_filter_tx_one_file_rows_witness :
  in_region (event (clean_row SAMPLE_NUMERIC
     (sample_row (Some (lit "TEXAS")) 201503 (VStr (lit "10.5K")) (VStr (lit "2M")))))
  /\ TOTAL_DAMAGE_USD (clean_row SAMPLE_NUMERIC
       (sample_row (Some (lit "TEXAS")) 201503 (VStr (lit "10.5K")) (VStr (lit "2M"))))
     = float_lit 2010500.
Proof.
  destruct (load_filter_tx_one_file_rows SAMPLE_NUMERIC SAMPLE_ROWS 2
              (clean_row SAMPLE_NUMERIC <$> filter in_region SAMPLE_ROWS)
              (clean_row SAMPLE_NUMERIC
                 (sample_row (Some (lit "TEXAS")) 201503 (VStr (lit "10.5K"))
                    (VStr (lit "2M")))))
    as (Hreg & _ & _ & Htotal & _).
  - vm_compute. reflexivity.
  - vm_compute. apply list_elem_of_here.
  - split; [exact Hreg|]. vm_compute. reflexivity.
Defined.

Lemma main_missing_year_witness :
  main SAMPLE_NUMERIC SAMPLE_WRITER RAW_2010_2011
  = Raise (FileNotFoundError (NO_CSV_MSG 2012)).
Proof.
  apply (main_missing_year SAMPLE_NUMERIC SAMPLE_WRITER RAW_2010_2011 2012).
  - lia.
  - apply glob_nil. vm_compute. reflexivity.
  - intros y' Hy'. assert (y' = 2010 \/ y' = 2011) as [-> | ->] by lia.
    + exists (lit "StormEvents_details-ftp_v1.0_d2010_c20210101.csv"). split.
      * apply elem_of_dom. exists []. vm_compute. reflexivity.
      * exists (lit "20210101"). vm_compute. reflexivity.
    + exists (lit "StormEvents_details-ftp_v1.0_d2011_c20210101.csv"). split.
      * apply elem_of_dom. exists []. vm_compute. reflexivity.
      * exists (lit "20210101"). vm_compute. reflexivity.
Defined.

Lemma main_dataset_witness :
  derive <$> concat SAMPLE_RESULTS <> [] /\
  exists paths,
    iter_year_files RAW_ALL_YEARS 2010 2025 = (paths, None) /\
    derive <$> concat SAMPLE_RESULTS
    = derive <$> (clean_row SAMPLE_NUMERIC
                    <$> filter in_region (concat (rows_at RAW_ALL_YEARS <$> paths))).
Proof.
  apply (main_dataset SAMPLE_NUMERIC SAMPLE_WRITER RAW_ALL_YEARS
           (derive <$> concat SAMPLE_RESULTS)).
  vm_compute. reflexivity.
Defined.

(** * Further properties of the selection of files *)

Lemma keep_latest_absent (year : Z) (l : list (Z * Z * str))
    (latest : gmap Z (Z * str)) :
  (forall c f, (year, c, f) ∉ l) -> latest !! year = None ->
  foldl keep_latest latest l !! year = None.
Proof.
  revert latest; induction l as [|[[y c0] f0] l IH]; intros latest Hl Hnone; [done|].
  simpl. apply IH.
  - intros c f Hin. apply (Hl c f). by right.
  - assert (y <> year) as Hne by (intros ->; apply (Hl c0 f0); by left).
    unfold keep_latest. destruct (latest !! y) as [[c1 f1]|];
      [destruct (c0 >? c1)|]; by rewrite ?lookup_insert_ne.
Qed.

(** X17: the mapping that [build_latest_file_map] returns has an entry
    for a year exactly when the text holds a file name for that year, and
    the entry of a year is one of the file names of the text for that
    year. *)
Theorem build_latest_file_map_entries (html : str) (m : gmap Z str) (year : Z) :
  build_latest_file_map html = Return m ->
  (m !! year = None <-> ~ exists c f, filename_in html year c f) /\
  (forall f, m !! year = Some f -> exists c, filename_in html year c f).
Proof.
  unfold build_latest_file_map.
  destruct (scan_matches html) as [|t l] eqn:Hs; [done|]. rewrite <- Hs.
  intros Hm. assert (m = snd <$> foldl keep_latest ∅ (scan_matches html)) as ->
    by congruence.
  clear Hm. rewrite lookup_fmap.
  destruct (decide (Exists (fun t => t.1.1 = year) (scan_matches html))) as [Hex|Hno].
  - apply Exists_exists in Hex as ([[y c] f] & Hin & Hy). simpl in Hy; subst y.
    destruct (first_max_split year (scan_matches html))
      as (l1 & cd & fn & l2 & Heq & H1 & H2); [by exists c, f|].
    rewrite Heq, (keep_latest_first_max year cd l1 l2 fn H1 H2). simpl.
    assert (filename_in html year cd fn) as Hfn.
    { apply scan_matches_filename. rewrite Heq. apply elem_of_app. right. by left. }
    split.
    + split; [done|]. intros Hnone. destruct Hnone. by exists cd, fn.
    + intros f' [= <-]. by exists cd.
  - rewrite keep_latest_absent.
    + split; [|done]. split; [|done]. intros _ (c & f & Hin).
      apply Hno, Exists_exists. exists (year, c, f).
      split; [by apply scan_matches_filename | done].
    + intros c f Hin. apply Hno, Exists_exists. by exists (year, c, f).
    + apply lookup_empty.
Qed.

Lemma build_latest_file_map_entries_witness :
  ((snd <$> foldl keep_latest ∅ (scan_matches LISTING_2020)) !! 2019 = None <->
   ~ exists c f, filename_in LISTING_2020 2019 c f) /\
  (forall f, (snd <$> foldl keep_latest ∅ (scan_matches LISTING_2020)) !! 2019 = Some f ->
     exists c, filename_in LISTING_2020 2019 c f).
Proof.
  apply (build_latest_file_map_entries LISTING_2020
           (snd <$> foldl keep_latest ∅ (scan_matches LISTING_2020)) 2019).
  vm_compute. reflexivity.
Defined.

(** X18: the scan of a text around a file name reports the matches before
    the name, then the name with its year and date, then the matches after
    it: what surrounds a name neither hides it nor is hidden by it. *)
Theorem scan_matches_around (pre fname ytext ctext suf : str) (year cdate : Z) :
  details_name fname ytext ctext ->
  int ytext = Some year -> int ctext = Some cdate ->
  scan_matches (pre ++ fname ++ suf) =
  scan_matches pre ++ (year, cdate, fname) :: scan_matches suf.
Proof. apply scan_matches_app. Qed.

Lemma scan_matches_around_witness :
  scan_matches (lit "<a href=" ++ NAME_2020_A ++ NAME_2020_B) =
  scan_matches (lit "<a href=") ++ (2020, 20210115, NAME_2020_A)
  :: scan_matches NAME_2020_B.
Proof.
  apply (scan_matches_around (lit "<a href=") NAME_2020_A (lit "2020")
           (lit "20210115") NAME_2020_B 2020 20210115).
  - unfold details_name.
    split; [vm_compute; reflexivity|].
    split; [vm_compute; reflexivity|].
    split; [repeat constructor|].
    split; [vm_compute; reflexivity|].
    repeat constructor.
  - vm_compute. reflexivity.
  - vm_compute. reflexivity.
Defined.

Lemma str_le_app_l (p a b : str) : str_le (p ++ a) (p ++ b) = str_le a b.
Proof.
  induction p as [|c p IH]; [done|]. simpl.
  by rewrite N.ltb_irrefl, N.eqb_refl.
Qed.

Lemma str_le_app_r (a b s : str) :
  length a = length b -> str_le (a ++ s) (b ++ s) = str_le a b.
Proof.
  revert b; induction a as [|x a IH]; intros [|y b] Hlen; simplify_eq/=.
  - apply str_le_refl.
  - rewrite IH by done. reflexivity.
Qed.

Lemma decimal_value_ascii (c : N) :
  is_ascii_digit c = true -> decimal_value c = Some (Z.of_N c - 48).
Proof.
  unfold is_ascii_digit. intros [H1%N.leb_le H2%N.leb_le]%andb_true_iff.
  unfold decimal_value, DECIMAL_ZEROS. cbn [decimal_in].
  destruct (N.leb_spec 48 c); [|lia]. destruct (N.ltb_spec c (48 + 10)); [|lia].
  cbn [andb]. f_equal. lia.
Qed.

(** Texts of ASCII digits of the same length compare as the numbers they
    write. *)
Lemma int_digits_order (a b : str) (acc1 acc2 x y : Z) :
  digits a -> digits b -> length a = length b ->
  int_digits acc1 a = Some x -> int_digits acc2 b = Some y ->
  (acc1 < acc2 -> x < y) /\ (acc2 < acc1 -> y < x) /\
  (acc1 = acc2 -> (str_le a b = true <-> x <= y)).
Proof.
  intros Ha; revert b acc1 acc2; induction Ha as [|c1 a Hc1 Ha IH];
    intros [|c2 b] acc1 acc2 Hb Hlen; simplify_eq/=.
  - intros [= <-] [= <-]. repeat split; intros; lia.
  - inversion Hb as [|? ? Hc2 Hb']; subst.
    rewrite (decimal_value_ascii c1 Hc1), (decimal_value_ascii c2 Hc2). simpl.
    intros Hx Hy.
    unfold is_ascii_digit in Hc1, Hc2.
    apply andb_true_iff in Hc1 as [?%N.leb_le ?%N.leb_le].
    apply andb_true_iff in Hc2 as [?%N.leb_le ?%N.leb_le].
    destruct (IH b _ _ Hb' ltac:(done) Hx Hy) as (Hlt & Hgt & Heq).
    split; [intros; apply Hlt; lia|]. split; [intros; apply Hgt; lia|].
    intros ->. destruct (N.ltb_spec c1 c2).
    + split; [intros _|done]. assert (x < y) by (apply Hlt; lia). lia.
    + destruct (N.eqb_spec c1 c2) as [->|Hne]; [by apply Heq|].
      split; [done|]. assert (y < x) by (apply Hgt; lia). lia.
Qed.

(** X19: among the files of a year whose revision dates are written with
    the same number of ASCII digits, the lexicographically last one, which
    is the one that [iter_year_files] yields, carries the numerically
    largest date, as the choice of the fetcher does. *)
Theorem last_year_file_latest_date (dir : raw_dir) (year : Z) (a b : str) (x y : Z) :
  last_year_file dir year (glob_head year ++ a ++ glob_tail) ->
  (glob_head year ++ b ++ glob_tail) ∈ dom dir ->
  digits a -> digits b -> length b = length a ->
  int a = Some x -> int b = Some y ->
  y <= x.
Proof.
  intros (_ & _ & Hmax) Hb Hda Hdb Hlen Hx Hy.
  specialize (Hmax _ Hb ltac:(by exists b)).
  rewrite str_le_app_l, str_le_app_r in Hmax by done.
  destruct a as [|c1 a]; [done|]. destruct b as [|c2 b]; [done|].
  unfold int in Hx, Hy.
  destruct (int_digits_order (c2 :: b) (c1 :: a) 0 0 y x Hdb Hda Hlen Hy Hx)
    as (_ & _ & Heq).
  by apply Heq.
Qed.

Lemma last_year_file_latest_date_witness : 20210101 <= 20220101.
Proof.
  apply (last_year_file_latest_date RAW_2010_2011 2010
           (lit "20220101") (lit "20210101") 20220101 20210101).
  - apply last_glob. vm_compute. reflexivity.
  - apply elem_of_dom. exists []. vm_compute. reflexivity.
  - repeat constructor.
  - repeat constructor.
  - vm_compute. reflexivity.
  - vm_compute. reflexivity.
  - vm_compute. reflexivity.
Defined.

(** With dates of different widths the two choices part: the file dated 9
    sorts after the file dated 10. *)
Example last_year_file_widths :
  (iter_year_files
     {[ lit "StormEvents_details-ftp_v1.0_d2010_c9.csv" := ([] : list event_row);
        lit "StormEvents_details-ftp_v1.0_d2010_c10.csv" := [] ]} 2010 2010).1
  = [lit "StormEvents_details-ftp_v1.0_d2010_c9.csv"].
Proof. vm_compute. reflexivity. Qed.

(** ** The name of the decompressed file *)

Lemma replace_gz_skip (n fuel : nat) (new p s : str) :
  length p = n -> Forall (fun c => c <> 46%N) p ->
  replace_from (n + fuel) (lit ".gz") new (p ++ s)
  = p ++ replace_from fuel (lit ".gz") new s.
Proof.
  intros <- Hp. induction Hp as [|c p Hc _ IH]; [done|].
  cbn [length Nat.add app replace_from]. rewrite IH.
  change (lit ".gz") with (46%N :: lit "gz"). cbn [strip_prefix].
  destruct (N.eqb_spec 46 c) as [<-|_]; done.
Qed.

Lemma replace_gz_version (fuel : nat) (new s : str) :
  replace_from (4 + fuel) (lit ".gz") new (46 :: 48 :: 95 :: 100 :: s)%N
  = (46 :: 48 :: 95 :: 100 :: replace_from fuel (lit ".gz") new s)%N.
Proof. reflexivity. Qed.

Lemma decimals_forallb (s : str) :
  forallb is_decimal s = true -> Forall (fun c => is_decimal c = true) s.
Proof. intros H. apply List.Forall_forall. by apply forallb_forall. Qed.

Lemma decimals_no_dot (s : str) :
  Forall (fun c => is_decimal c = true) s -> Forall (fun c => c <> 46%N) s.
Proof. apply List.Forall_impl. intros c Hc ->. by vm_compute in Hc. Qed.

Lemma replace_gz_details_name (fname year cdate : str) :
  details_name fname year cdate ->
  replace (lit ".gz") [] fname
  = DETAILS_HEAD ++ year ++ DETAILS_MID ++ cdate ++ glob_tail.
Proof.
  intros (-> & Hly & Hy & Hlc & Hc).
  unfold replace.
  assert (S (length (DETAILS_HEAD ++ year ++ DETAILS_MID ++ cdate ++ DETAILS_TAIL))
          = (26 + (4 + (4 + (2 + (8 + 8)))))%nat) as ->
    by (rewrite !length_app, Hly, Hlc; reflexivity).
  change (DETAILS_HEAD ++ year ++ DETAILS_MID ++ cdate ++ DETAILS_TAIL)
    with (lit "StormEvents_details-ftp_v1"
          ++ (46 :: 48 :: 95 :: 100 :: year ++ DETAILS_MID ++ cdate ++ DETAILS_TAIL)%N).
  change (DETAILS_HEAD ++ year ++ DETAILS_MID ++ cdate ++ glob_tail)
    with (lit "StormEvents_details-ftp_v1"
          ++ (46 :: 48 :: 95 :: 100 :: year ++ DETAILS_MID ++ cdate ++ glob_tail)%N).
  rewrite (replace_gz_skip 26); [|reflexivity|vm_compute; repeat constructor; done].
  rewrite replace_gz_version.
  rewrite (replace_gz_skip 4); [|done|by apply decimals_no_dot].
  rewrite (replace_gz_skip 2); [|reflexivity|vm_compute; repeat constructor; done].
  rewrite (replace_gz_skip 8); [|done|by apply decimals_no_dot].
  reflexivity.
Qed.

(** X20: the decompressed file of a remote name whose year is written as
    Python prints the integer carries the name without its final [.gz],
    and the pattern under which [iter_year_files] looks for the files of
    that year matches it. *)
Theorem decompressed_name_matches_glob (fname cdate : str) (year : Z) :
  details_name fname (str_of_int year) cdate ->
  replace (lit ".gz") [] fname = glob_head year ++ cdate ++ glob_tail /\
  glob_match year (replace (lit ".gz") [] fname) = true.
Proof.
  intros Hn. pose proof (replace_gz_details_name _ _ _ Hn) as ->.
  assert (DETAILS_HEAD ++ str_of_int year ++ DETAILS_MID ++ cdate ++ glob_tail
          = glob_head year ++ cdate ++ glob_tail) as ->.
  { unfold glob_head. by rewrite <- !app_assoc. }
  split; [done|]. apply glob_match_year_file. by exists cdate.
Qed.

Lemma decompressed_name_matches_glob_witness :
  replace (lit ".gz") [] NAME_2020_A = glob_head 2020 ++ lit "20210115" ++ glob_tail /\
  glob_match 2020 (replace (lit ".gz") [] NAME_2020_A) = true.
Proof.
  apply (decompressed_name_matches_glob NAME_2020_A (lit "20210115") 2020).
  split; [vm_compute; reflexivity|].
  split; [vm_compute; reflexivity|].
  split; [apply decimals_forallb; vm_compute; reflexivity|].
  split; [vm_compute; reflexivity|].
  apply decimals_forallb; vm_compute; reflexivity.
Defined.

(** A year that the listing writes with other digits than Python prints is
    fetched under a name that the pattern of that year does not match. *)
Example decompressed_name_other_digits :
  let year : str := [1634; 1632; 1634; 1632]%N in
  int year = Some 2020 /\
  glob_match 2020 (replace (lit ".gz") []
    (DETAILS_HEAD ++ year ++ DETAILS_MID ++ lit "20210115" ++ DETAILS_TAIL)) = false.
Proof. split; vm_compute; reflexivity. Qed.
